(** * Philippine Law MCP: ingestion pipeline

    A shallow embedding of the census / ingest scripts
    ([scripts/census.ts], [scripts/ingest.ts]) and of their library
    ([scripts/lib/fetcher.ts], [scripts/lib/parser.ts]), with the properties
    of the pipeline stated and proved over it.

    Strings are sequences of UTF-16 code units, as in JavaScript; regular
    expressions are run by a backtracking matcher that follows the
    ECMAScript matching rules (priority of alternatives, greedy and lazy
    quantifiers, captures, the empty-iteration check). *)

From Stdlib Require Import ZArith NArith Lia Bool.
From Stdlib Require Strings.String Strings.Ascii DecimalZ.
From stdpp Require Import base option list gmap sets.
Import Stdlib.Strings.String.StringSyntax.
Delimit Scope string_scope with string.

Local Open Scope nat_scope.

(** ** Strings *)

(** A UTF-16 code unit. *)
Definition char := N.
Definition str := list char.

Fixpoint lit (s : String.string) : str :=
  match s with
  | String.EmptyString => []
  | String.String a s' => Ascii.N_of_ascii a :: lit s'
  end.

Definition ch (s : String.string) : char :=
  match s with
  | String.String a _ => Ascii.N_of_ascii a
  | String.EmptyString => 0%N
  end.

Arguments lit s%_string.
Arguments ch s%_string.

Definition str_eqb (a b : str) : bool := bool_decide (a = b).

(** [s.substring(a, b)]: both ends are clamped to the length and swapped
    when out of order. *)
Definition substring (a b : nat) (s : str) : str :=
  let a' := Nat.min a (length s) in
  let b' := Nat.min b (length s) in
  let lo := Nat.min a' b' in
  let hi := Nat.max a' b' in
  take (hi - lo) (drop lo s).

(** [s.substring(a)] *)
Definition substring_from (a : nat) (s : str) : str := drop a s.

Fixpoint is_prefix (p s : str) : bool :=
  match p, s with
  | [], _ => true
  | _ :: _, [] => false
  | x :: p', y :: s' => (x =? y)%N && is_prefix p' s'
  end.

(** [s.includes(p)] *)
Fixpoint includes (p s : str) : bool :=
  is_prefix p s || match s with [] => false | _ :: s' => includes p s' end.

(** White space and line terminators: the class [\s], which is also what
    [trim] removes. *)
Definition is_ws (c : char) : bool :=
  ((9 <=? c) && (c <=? 13) || (c =? 32) || (c =? 160) || (c =? 5760)
   || (8192 <=? c) && (c <=? 8202) || (c =? 8232) || (c =? 8233)
   || (c =? 8239) || (c =? 8287) || (c =? 12288) || (c =? 65279))%N.

Definition is_line_terminator (c : char) : bool :=
  ((c =? 10) || (c =? 13) || (c =? 8232) || (c =? 8233))%N.

Definition is_digit (c : char) : bool := ((48 <=? c) && (c <=? 57))%N.
Definition is_upper (c : char) : bool := ((65 <=? c) && (c <=? 90))%N.
Definition is_lower (c : char) : bool := ((97 <=? c) && (c <=? 122))%N.
Definition is_alpha (c : char) : bool := is_upper c || is_lower c.
(** The class [\w]. *)
Definition is_word (c : char) : bool := is_alpha c || is_digit c || (c =? 95)%N.

Fixpoint drop_ws (s : str) : str :=
  match s with
  | c :: s' => if is_ws c then drop_ws s' else s
  | [] => []
  end.

(** [s.trim()] *)
Definition trim (s : str) : str := rev (drop_ws (rev (drop_ws s))).

(** Case mapping restricted to the ASCII letters. *)
Definition ascii_lower_char (c : char) : char := if is_upper c then (c + 32)%N else c.
Definition ascii_upper_char (c : char) : char := if is_lower c then (c - 32)%N else c.
Definition ascii_toLowerCase (s : str) : str := map ascii_lower_char s.
Definition ascii_toUpperCase (s : str) : str := map ascii_upper_char s.

(** ** Regular expressions *)

Module Regex.

Inductive re : Type :=
| Eps
| Chr (p : char -> bool)
| Cat (a b : re)
| Alt (a b : re)
| Rep (greedy : bool) (lo : nat) (hi : option nat) (a : re)
| Grp (i : nat) (a : re)
| Bol (multiline : bool)
| Eol (multiline : bool)
| Wbd.

(** The matcher's state: the end index reached so far, the code unit
    before it, the input still ahead, and the captures as spans. *)
Record mstate : Type := MState {
  pos : nat;
  prev : option char;
  rest : str;
  caps : list (nat * (nat * nat))
}.

Definition kont := mstate -> option mstate.

Definition set_cap (i : nat) (span : nat * nat) (cs : list (nat * (nat * nat))) :=
  (i, span) :: filter (fun e => negb (Nat.eqb (fst e) i)) cs.

Fixpoint get_cap (i : nat) (cs : list (nat * (nat * nat))) : option (nat * nat) :=
  match cs with
  | [] => None
  | (j, span) :: cs' => if Nat.eqb j i then Some span else get_cap i cs'
  end.

(** The capture indices inside a pattern: a quantifier resets them at
    the start of every iteration. *)
Fixpoint groups (r : re) : list nat :=
  match r with
  | Cat a b | Alt a b => groups a ++ groups b
  | Rep _ _ _ a => groups a
  | Grp i a => i :: groups a
  | _ => []
  end.

Definition clear_caps (gs : list nat) (st : mstate) : mstate :=
  MState (pos st) (prev st) (rest st)
    (filter (fun e => negb (existsb (Nat.eqb (fst e)) gs)) (caps st)).

Definition opt_word (o : option char) : bool :=
  match o with Some c => is_word c | None => false end.

Definition opt_lt (o : option char) : bool :=
  match o with Some c => is_line_terminator c | None => false end.

Definition pred_hi (hi : option nat) : option nat :=
  match hi with Some h => Some (Nat.pred h) | None => None end.

Definition or_else (x : option mstate) (y : unit -> option mstate) :=
  match x with Some z => Some z | None => y tt end.

(** The quantifier loop.  [ra] runs the quantified pattern, [gs] are its
    capture indices, [lo] and [hi] the iterations still required and still
    allowed.  An iteration that is not required and consumes nothing is
    rejected, so [n], which starts above [lo] plus the length of the input
    ahead, is never exhausted. *)
Fixpoint rep_loop (ra : kont -> mstate -> option mstate) (gs : list nat)
    (greedy : bool) (k : kont) (n lo : nat) (hi : option nat) (x : mstate)
    {struct n} : option mstate :=
  match hi with
  | Some 0 => k x
  | _ =>
      match n with
      | 0 => None
      | S n' =>
          let d := fun y : mstate =>
            if Nat.eqb lo 0 && Nat.eqb (pos y) (pos x) then None
            else rep_loop ra gs greedy k n' (Nat.pred lo) (pred_hi hi) y in
          let xr := clear_caps gs x in
          if negb (Nat.eqb lo 0) then ra d xr
          else if greedy then or_else (ra d xr) (fun _ => k x)
          else or_else (k x) (fun _ => ra d xr)
      end
  end.

(** [run r k st]: match [r] at [st], then continue with [k]; the first
    success in backtracking order is the result. *)
Fixpoint run (r : re) (k : kont) (st : mstate) {struct r} : option mstate :=
  match r with
  | Eps => k st
  | Chr p =>
      match rest st with
      | c :: tl =>
          if p c then k (MState (S (pos st)) (Some c) tl (caps st)) else None
      | [] => None
      end
  | Cat a b => run a (run b k) st
  | Alt a b => or_else (run a k st) (fun _ => run b k st)
  | Rep greedy lo hi a =>
      rep_loop (run a) (groups a) greedy k (S (lo + length (rest st))) lo hi st
  | Grp i a =>
      run a (fun y => k (MState (pos y) (prev y) (rest y)
                           (set_cap i (pos st, pos y) (caps y)))) st
  | Bol ml =>
      if Nat.eqb (pos st) 0 || ml && opt_lt (prev st) then k st else None
  | Eol ml =>
      match rest st with
      | [] => k st
      | c :: _ => if ml && is_line_terminator c then k st else None
      end
  | Wbd =>
      if xorb (opt_word (prev st)) (opt_word (head (rest st))) then k st else None
  end.

(** A lower bound on the code units a match of [r] consumes. *)
Fixpoint minlen (r : re) : nat :=
  match r with
  | Chr _ => 1
  | Cat a b => minlen a + minlen b
  | Alt a b => Nat.min (minlen a) (minlen b)
  | Rep _ lo hi a =>
      match hi, lo with
      | Some 0, _ => 0
      | _, 0 => 0
      | _, S _ => minlen a
      end
  | Grp _ a => minlen a
  | _ => 0
  end.

(** [y] is reached from [x] by consuming input: it is further on in the
    same text. *)
Definition extends (x y : mstate) : Prop :=
  pos x <= pos y /\ pos y + length (rest y) = pos x + length (rest x).

(** What a runner guarantees: a success comes from the continuation, called
    on a state further on by at least [m] code units. *)
Definition sound_runner (m : nat) (ra : kont -> mstate -> option mstate) : Prop :=
  forall k x z, ra k x = Some z ->
    exists y, k y = Some z /\ extends x y /\ pos x + m <= pos y.

(** A runner only consults its continuation on states reached from the
    one it starts at. *)
Definition local_runner (ra : kont -> mstate -> option mstate) : Prop :=
  forall k1 k2 x, (forall y, extends x y -> k1 y = k2 y) -> ra k1 x = ra k2 x.

(** A successful match: where it starts, where it ends, its captures. *)
Record rmatch : Type := RMatch {
  m_index : nat;
  m_end : nat;
  m_caps : list (nat * (nat * nat))
}.

Definition try_at (r : re) (p : nat) (pv : option char) (s : str) : option rmatch :=
  match run r Some (MState p pv s []) with
  | Some z => Some (RMatch p (pos z) (caps z))
  | None => None
  end.

(** The leftmost match at or after index [p]; [s] is the input from [p]
    on and [pv] the code unit before it. *)
Fixpoint search (r : re) (p : nat) (pv : option char) (s : str) : option rmatch :=
  match try_at r p pv s with
  | Some m => Some m
  | None =>
      match s with
      | [] => None
      | c :: tl => search r (S p) (Some c) tl
      end
  end.

(** [r.exec(s)] of a pattern without the [g] flag, [s.match(r)]. *)
Definition exec (r : re) (s : str) : option rmatch := search r 0 None s.

(** The successive matches of a [g] pattern, as found by a
    [while (m = r.exec(s))] loop or by [replace]: each search resumes
    where the previous match ended (one further when it was empty). *)
Fixpoint scan (r : re) (resume p : nat) (pv : option char) (s : str) : list rmatch :=
  let continue := fun sk =>
    match s with
    | [] => []
    | c :: tl => scan r sk (S p) (Some c) tl
    end in
  if p <? resume then continue resume
  else match try_at r p pv s with
       | Some m => m :: continue (Nat.max (m_end m) (S p))
       | None => continue resume
       end.

Definition exec_all (r : re) (s : str) : list rmatch := scan r 0 0 None s.

(** The text of capture [i], when it took part in the match. *)
Definition group (s : str) (m : rmatch) (i : nat) : option str :=
  match get_cap i (m_caps m) with
  | Some (a, b) => Some (take (b - a) (drop a s))
  | None => None
  end.

Fixpoint splice (repl : str) (ms : list rmatch) (cur : nat) (s : str) : str :=
  match ms with
  | [] => s
  | m :: ms' =>
      take (m_index m - cur) s ++ repl
        ++ splice repl ms' (m_end m) (drop (m_end m - cur) s)
  end.

(** [s.replace(r, repl)] for a [g] pattern and a replacement text without
    [$] patterns. *)
Definition replace_all (r : re) (repl : str) (s : str) : str :=
  splice repl (exec_all r s) 0 s.

(** [s.replace(r, repl)] for a pattern without the [g] flag. *)
Definition replace_first (r : re) (repl : str) (s : str) : str :=
  match exec r s with
  | Some m => splice repl [m] 0 s
  | None => s
  end.

(** [s.split(r)[0]] for a separator that cannot match the empty string. *)
Definition split_head (r : re) (s : str) : str :=
  match exec r s with
  | Some m => take (m_index m) s
  | None => s
  end.

(** *** Pattern syntax *)

Definition seq (rs : list re) : re := foldr Cat Eps rs.
Definition alts (r : re) (rs : list re) : re := foldl Alt r rs.
Definition star (a : re) : re := Rep true 0 None a.
Definition plus (a : re) : re := Rep true 1 None a.
Definition opt (a : re) : re := Rep true 0 (Some 1) a.
Definition lazy_star (a : re) : re := Rep false 0 None a.
Definition times (lo hi : nat) (a : re) : re := Rep true lo (Some hi) a.

Definition c_is (c : char) : re := Chr (N.eqb c).
Definition c_not (cs : list char) : re :=
  Chr (fun x => negb (existsb (N.eqb x) cs)).
Definition c_in (cs : list char) : re := Chr (fun x => existsb (N.eqb x) cs).
Definition c_any : re := Chr (fun _ => true).
Definition ws : re := Chr is_ws.
Definition digit : re := Chr is_digit.
Definition word : re := Chr is_word.

(** Under the [i] flag two code units match when their canonical forms
    agree.  The literals and classes of this program's patterns are ASCII or
    caseless, and canonicalisation never maps a code unit from outside ASCII
    into it, so comparing after ASCII upper-casing decides the same
    matches. *)
Definition ci_is (c : char) : re :=
  Chr (fun x => N.eqb (ascii_upper_char x) (ascii_upper_char c)).
Definition ci_in (cs : list char) : re :=
  Chr (fun x => existsb (fun c => N.eqb (ascii_upper_char x) (ascii_upper_char c)) cs).

Definition text (s : String.string) : re := seq (map c_is (lit s)).
Definition text_i (s : String.string) : re := seq (map ci_is (lit s)).

Arguments text s%_string.
Arguments text_i s%_string.

End Regex.

(** ** The parser ([scripts/lib/parser.ts]) *)

Module Parser.
Import Regex.

Inductive ActStatus : Type := in_force | amended | repealed | not_yet_in_force.

Record ActIndexEntry : Type := {
  id : str;
  title : str;
  titleEn : str;
  shortName : str;
  status : ActStatus;
  issuedDate : str;
  inForceDate : str;
  url : str;
  description : option str
}.

(** The field [title] of a provision is [p_title] here, and the fields of
    a parsed act carry the prefix [a_], to keep them apart from those of the
    index entry. *)
Record ParsedProvision : Type := {
  provision_ref : str;
  chapter : option str;
  section : str;
  p_title : str;
  content : str
}.

Record ParsedDefinition : Type := {
  term : str;
  definition : str;
  source_provision : option str
}.

Inductive ActType : Type := statute.

Record ParsedAct : Type := {
  a_id : str;
  a_type : ActType;
  a_title : str;
  a_title_en : str;
  a_short_name : str;
  a_status : ActStatus;
  a_issued_date : str;
  a_in_force_date : str;
  a_url : str;
  a_description : option str;
  provisions : list ParsedProvision;
  definitions : list ParsedDefinition
}.

Definition nl : str := [10%N].
Definition sp : str := [32%N].

(** The patterns of [stripHtml], in the order they are applied. *)
Definition re_br : re := seq [text_i "<br"; star ws; opt (c_is (ch "/")); c_is (ch ">")].
Definition re_p_close : re := text_i "</p>".
Definition re_tag : re := seq [c_is (ch "<"); plus (c_not [ch ">"]); c_is (ch ">")].
Definition re_zwsp : re := c_is 8203%N.
Definition re_blanks : re := plus (c_in [32%N; 9%N]).
Definition re_blank_lines : re := seq [c_is 10%N; star ws; c_is 10%N].
Definition re_line_edges : re := Alt (seq [Bol true; plus ws]) (seq [plus ws; Eol true]).

(** Strip HTML tags and decode common entities, normalising whitespace. *)
Definition stripHtml (html : str) : str :=
  let s := replace_all re_br nl html in
  let s := replace_all re_p_close nl s in
  let s := replace_all re_tag sp s in
  let s := replace_all (text "&nbsp;") sp s in
  let s := replace_all (text "&#xA0;") sp s in
  let s := replace_all (text "&#160;") sp s in
  let s := replace_all (text "&amp;") (lit "&") s in
  let s := replace_all (text "&lt;") (lit "<") s in
  let s := replace_all (text "&gt;") (lit ">") s in
  let s := replace_all (text "&quot;") [34%N] s in
  let s := replace_all (text "&#39;") (lit "'") s in
  let s := replace_all (text "&mdash;") [8212%N] s in
  let s := replace_all (text "&ndash;") [8211%N] s in
  let s := replace_all (text "&rsquo;") [8217%N] s in
  let s := replace_all (text "&lsquo;") [8216%N] s in
  let s := replace_all (text "&ldquo;") [8220%N] s in
  let s := replace_all (text "&rdquo;") [8221%N] s in
  let s := replace_all re_zwsp [] s in
  let s := replace_all re_blanks sp s in
  let s := replace_all re_blank_lines nl s in
  let s := replace_all re_line_edges [] s in
  trim s.

(** The pattern that isolates the content of the body element, flag [i]. *)
Definition bodyPattern : re :=
  seq [text_i "<body"; star (c_not [ch ">"]); c_is (ch ">");
       Grp 1 (lazy_star c_any); text_i "</body>"].

(** The number of a section marker: digits, then letters. *)
Definition section_number (i : nat) : re := Grp i (seq [plus digit; star (Chr is_alpha)]).

(** The section boundary pattern, flags [gi]. *)
Definition sectionPattern : re :=
  seq [Alt (Bol false) (c_is 10%N);
       star ws;
       star (seq [c_is (ch "<"); star (c_not [ch ">"]); c_is (ch ">"); star ws]);
       Alt
         (seq [alts (text_i "Section") [text_i "Sec."; text_i "SEC."; text_i "SECTION"];
               plus ws; section_number 1; opt (c_is (ch ".")); star ws])
         (seq [alts (text_i "Article") [text_i "Art."; text_i "ART."; text_i "ARTICLE"];
               plus ws; section_number 2; opt (c_is (ch ".")); star ws])].

(** The chapter heading pattern, flags [gi]. *)
Definition chapterPattern : re :=
  seq [star (seq [c_is (ch "<"); star (c_not [ch ">"]); c_is (ch ">"); star ws]);
       Grp 1 (Alt (text_i "CHAPTER") (text_i "TITLE"));
       plus ws;
       Grp 2 (Alt (plus (ci_in (lit "IVXLCDM"))) (plus digit));
       Wbd;
       lazy_star c_any;
       Alt (c_is 10%N) (seq [text_i "<br"; star (c_not [ch ">"]); c_is (ch ">")])].

(** The two line separators used with [split]. *)
Definition re_nl_or_br : re := Alt (c_is 10%N) (text_i "<br").
Definition re_nl : re := c_is 10%N.

(** The text before the first period of the line. *)
Definition titlePattern : re := seq [Bol false; Grp 1 (plus (c_not [ch "."])); c_is (ch ".")].
(** A leading dash, en dash or em dash with the white space around it. *)
Definition re_lead_dash : re :=
  seq [Bol false; star ws; c_in [ch "-"; 8211%N; 8212%N]; star ws].
(** Leading dashes, dots and white space. *)
Definition re_lead_punct : re :=
  seq [Bol false; plus (Chr (fun c => (c =? ch "-")%N || (c =? ch ".")%N || is_ws c))].

(** The definition pattern, flags [gi]: an optional enumerator, the quoted
    term, a defining verb, and the body up to a semicolon or period. *)
Definition def_head : re :=
  seq [opt (seq [c_is (ch "("); plus (Chr (fun c => is_alpha c || is_digit c));
                 c_is (ch ")"); star ws]);
       c_in [34%N; 8220%N];
       Grp 1 (plus (c_not [34%N; 8221%N]));
       c_in [34%N; 8221%N];
       star ws;
       alts (text_i "refers to")
         [text_i "means"; text_i "shall mean"; text_i "shall refer to";
          text_i "includes"; text_i "has the meaning"; text_i "is"; text_i "are"];
       plus ws].
Definition def_body : re := seq [plus (c_not [ch ";"]); c_in [ch ";"; ch "."]].
Definition defPattern : re := Cat def_head (Grp 2 def_body).

(** A final semicolon or period. *)
Definition re_end_punct : re := seq [c_in [ch ";"; ch "."]; Eol false].

Definition group_text (s : str) (m : rmatch) (i : nat) : str :=
  default [] (group s m i).

(** One iteration of the [while] loop of [extractDefinitions]: the
    definition pushed for a match, if it passes the length checks. *)
Definition definition_of_match (text : str) (sourceProvision : str) (m : rmatch)
  : option ParsedDefinition :=
  let term := trim (group_text text m 1) in
  let definition := trim (replace_first re_end_punct [] (group_text text m 2)) in
  if (0 <? length term) && (length term <? 100) && (5 <? length definition)
  then Some {| term := term;
               definition := substring 0 4000 definition;
               source_provision := Some sourceProvision |}
  else None.

(** Extract term definitions from a definition section; the result is
    the [definitions] array after the pushes. *)
Definition extractDefinitions (text : str) (sourceProvision : str)
    (definitions : list ParsedDefinition) : list ParsedDefinition :=
  definitions ++ omap (definition_of_match text sourceProvision) (exec_all defPattern text).

Record SectionStart : Type := {
  s_index : nat;
  sectionNum : str;
  matchLength : nat
}.

Record Chapter : Type := {
  c_index : nat;
  c_name : str
}.

Section WithCaseMapping.

(** [String.prototype.toLowerCase] and [toUpperCase]: the Unicode case
    tables are not part of the program. *)
Variable toLowerCase : str -> str.
Variable toUpperCase : str -> str.

Definition section_start_of_match (bodyHtml : str) (m : rmatch) : option SectionStart :=
  let num := trim (match group bodyHtml m 1 with
                   | Some g => g
                   | None => match group bodyHtml m 2 with Some g => g | None => [] end
                   end) in
  match num with
  | [] => None
  | _ => Some {| s_index := m_index m; sectionNum := num;
                 matchLength := m_end m - m_index m |}
  end.

Definition find_section_starts (bodyHtml : str) : list SectionStart :=
  omap (section_start_of_match bodyHtml) (exec_all sectionPattern bodyHtml).

Definition chapter_of_match (bodyHtml : str) (m : rmatch) : Chapter :=
  let afterChapter :=
    substring (m_end m) (Nat.min (m_end m + 300) (length bodyHtml)) bodyHtml in
  let titleLine := trim (stripHtml (split_head re_nl_or_br afterChapter)) in
  let chapterLabel :=
    toUpperCase (group_text bodyHtml m 1 ++ sp ++ group_text bodyHtml m 2) in
  let chapterName :=
    match titleLine with
    | [] => chapterLabel
    | _ => chapterLabel ++ lit " - " ++ titleLine
    end in
  {| c_index := m_index m; c_name := chapterName |}.

Definition find_chapters (bodyHtml : str) : list Chapter :=
  map (chapter_of_match bodyHtml) (exec_all chapterPattern bodyHtml).

(** [for (const ch of chapters) if (ch.index <= start.index) currentChapter = ch.name] *)
Definition update_chapter (chapters : list Chapter) (start : nat) (currentChapter : str) : str :=
  foldl (fun cur c => if c_index c <=? start then c_name c else cur) currentChapter chapters.

Definition section_title (sectionHtml : str) (start : SectionStart) : str :=
  let afterMarker := substring_from (matchLength start) sectionHtml in
  let titleText := stripHtml (split_head re_nl afterMarker) in
  let title :=
    match exec titlePattern titleText with
    | Some tm => trim (replace_first re_lead_dash [] (group_text titleText tm 1))
    | None => substring 0 200 (trim (replace_first re_lead_dash [] titleText))
    end in
  trim (replace_first re_lead_punct [] title).

Definition is_definition_title (title : str) : bool :=
  includes (lit "definition") (toLowerCase title)
  || includes (lit "interpretation") (toLowerCase title)
  || includes (lit "terms") (toLowerCase title).

(** The mutable state of the section loop. *)
Record LoopState : Type := {
  currentChapter : str;
  l_provisions : list ParsedProvision;
  l_definitions : list ParsedDefinition
}.

(** What one iteration of the section loop computes before it decides
    what to push. *)
Record Candidate : Type := {
  k_ref : str;
  k_chapter : str;
  k_num : str;
  k_title : str;
  k_content : str
}.

Definition candidate (bodyHtml : str) (chapters : list Chapter) (cur : str)
    (start : SectionStart) (nextStart : nat) : Candidate :=
  let sectionHtml := substring (s_index start) nextStart bodyHtml in
  {| k_ref := lit "sec" ++ toLowerCase (sectionNum start);
     k_chapter := update_chapter chapters (s_index start) cur;
     k_num := sectionNum start;
     k_title := section_title sectionHtml start;
     k_content := stripHtml sectionHtml |}.

Definition provision_of (c : Candidate) : ParsedProvision :=
  {| provision_ref := k_ref c;
     chapter := match k_chapter c with [] => None | _ => Some (k_chapter c) end;
     section := k_num c;
     p_title := k_title c;
     content := substring 0 12000 (k_content c) |}.

Definition push_candidate (c : Candidate) (st : LoopState) : LoopState :=
  {| currentChapter := k_chapter c;
     l_provisions :=
       if 10 <? length (k_content c)
       then l_provisions st ++ [provision_of c] else l_provisions st;
     l_definitions :=
       if is_definition_title (k_title c)
       then extractDefinitions (k_content c) (k_ref c) (l_definitions st)
       else l_definitions st |}.

(** The candidates of the sections from index [i] on, where [cur] is the
    chapter current before them. *)
Fixpoint candidates_from (bodyHtml : str) (chapters : list Chapter)
    (starts : list SectionStart) (cur : str) : list Candidate :=
  match starts with
  | [] => []
  | start :: later =>
      let nextStart :=
        match later with
        | next :: _ => s_index next
        | [] => length bodyHtml
        end in
      let c := candidate bodyHtml chapters cur start nextStart in
      c :: candidates_from bodyHtml chapters later (k_chapter c)
  end.

(** The section loop: [starts] are the entries from index [i] on. *)
Fixpoint section_loop (bodyHtml : str) (chapters : list Chapter)
    (starts : list SectionStart) (st : LoopState) : LoopState :=
  match starts with
  | [] => st
  | start :: later =>
      let nextStart :=
        match later with
        | next :: _ => s_index next
        | [] => length bodyHtml
        end in
      section_loop bodyHtml chapters later
        (push_candidate
           (candidate bodyHtml chapters (currentChapter st) start nextStart) st)
  end.

(** A [Map] in insertion order: [set] on a present key replaces the value
    in place, on a new key appends. *)
Fixpoint map_get {V : Type} (key : str) (m : list (str * V)) : option V :=
  match m with
  | [] => None
  | (k, v) :: m' => if str_eqb k key then Some v else map_get key m'
  end.

Fixpoint map_set {V : Type} (key : str) (v : V) (m : list (str * V)) : list (str * V) :=
  match m with
  | [] => [(key, v)]
  | (k, v') :: m' => if str_eqb k key then (k, v) :: m' else (k, v') :: map_set key v m'
  end.

Definition map_values {V : Type} (m : list (str * V)) : list V := map snd m.

(** Deduplicate provisions by [provision_ref] (keep longest content). *)
Definition dedup_step_prov (byRef : list (str * ParsedProvision)) (prov : ParsedProvision) :=
  match map_get (provision_ref prov) byRef with
  | Some existing =>
      if length (content existing) <? length (content prov)
      then map_set (provision_ref prov) prov byRef else byRef
  | None => map_set (provision_ref prov) prov byRef
  end.

Definition dedup_provisions (ps : list ParsedProvision) : list ParsedProvision :=
  map_values (foldl dedup_step_prov [] ps).

(** Deduplicate definitions by lower-cased term (keep longest). *)
Definition dedup_step_def (byTerm : list (str * ParsedDefinition)) (def : ParsedDefinition) :=
  match map_get (toLowerCase (term def)) byTerm with
  | Some existing =>
      if length (definition existing) <? length (definition def)
      then map_set (toLowerCase (term def)) def byTerm else byTerm
  | None => map_set (toLowerCase (term def)) def byTerm
  end.

Definition dedup_definitions (ds : list ParsedDefinition) : list ParsedDefinition :=
  map_values (foldl dedup_step_def [] ds).

Definition body_of (html : str) : str :=
  match exec bodyPattern html with
  | Some m => group_text html m 1
  | None => html
  end.

(** The state of the section loop when it ends. *)
Definition scan_sections (html : str) : LoopState :=
  let bodyHtml := body_of html in
  section_loop bodyHtml (find_chapters bodyHtml) (find_section_starts bodyHtml)
    {| currentChapter := []; l_provisions := []; l_definitions := [] |}.

(** The candidate of every section match of the page, in document
    order. *)
Definition candidates (html : str) : list Candidate :=
  let bodyHtml := body_of html in
  candidates_from bodyHtml (find_chapters bodyHtml) (find_section_starts bodyHtml) [].

(** Parse Philippine legislation HTML from LawPhil into structured
    provisions. *)
Definition parsePhilippineHtml (html : str) (act : ActIndexEntry) : ParsedAct :=
  let st := scan_sections html in
  {| a_id := id act;
     a_type := statute;
     a_title := title act;
     a_title_en := titleEn act;
     a_short_name := shortName act;
     a_status := status act;
     a_issued_date := issuedDate act;
     a_in_force_date := inForceDate act;
     a_url := url act;
     a_description := description act;
     provisions := dedup_provisions (l_provisions st);
     definitions := dedup_definitions (l_definitions st) |}.

End WithCaseMapping.

Definition act_ra_10173_data_privacy_act : ActIndexEntry :=
  {| id := lit "ra-10173-data-privacy-act";
     title := lit "Data Privacy Act of 2012";
     titleEn := lit "Data Privacy Act of 2012";
     shortName := lit "RA 10173";
     status := in_force;
     issuedDate := lit "2012-08-15";
     inForceDate := lit "2012-09-08";
     url := lit "https://lawphil.net/statutes/repacts/ra2012/ra_10173_2012.html";
     description := Some
       (lit "Comprehensive data protection law establishing the National Privacy " ++
        lit "Commission (NPC); protects individual personal information in " ++
        lit "information and communications systems") |}.

Definition act_ra_10175_cybercrime_prevention : ActIndexEntry :=
  {| id := lit "ra-10175-cybercrime-prevention";
     title := lit "Cybercrime Prevention Act of 2012";
     titleEn := lit "Cybercrime Prevention Act of 2012";
     shortName := lit "RA 10175";
     status := in_force;
     issuedDate := lit "2012-09-12";
     inForceDate := lit "2012-10-03";
     url := lit "https://lawphil.net/statutes/repacts/ra2012/ra_10175_2012.html";
     description := Some
       (lit "Defines and penalises cybercrimes including illegal access, data " ++
        lit "interference, cybersex, child pornography, identity theft, and online " ++
        lit "libel") |}.

Definition act_ra_11934_sim_registration : ActIndexEntry :=
  {| id := lit "ra-11934-sim-registration";
     title := lit "SIM Registration Act";
     titleEn := lit "SIM Registration Act";
     shortName := lit "RA 11934";
     status := in_force;
     issuedDate := lit "2022-10-10";
     inForceDate := lit "2022-12-27";
     url := lit "https://lawphil.net/statutes/repacts/ra2022/ra_11934_2022.html";
     description := Some
       (lit "Requires registration of all SIM cards and social media accounts with " ++
        lit "telecommunications providers; aimed at deterring crimes committed " ++
        lit "through mobile phones and the internet") |}.

Definition act_ra_8792_e_commerce : ActIndexEntry :=
  {| id := lit "ra-8792-e-commerce";
     title := lit "Electronic Commerce Act of 2000";
     titleEn := lit "Electronic Commerce Act of 2000";
     shortName := lit "RA 8792";
     status := in_force;
     issuedDate := lit "2000-06-14";
     inForceDate := lit "2000-06-14";
     url := lit "https://lawphil.net/statutes/repacts/ra2000/ra_8792_2000.html";
     description := Some
       (lit "Provides legal recognition and admissibility of electronic documents, " ++
        lit "electronic signatures, and electronic commerce transactions") |}.

Definition act_ra_11232_revised_corporation_code : ActIndexEntry :=
  {| id := lit "ra-11232-revised-corporation-code";
     title := lit "Revised Corporation Code of the Philippines";
     titleEn := lit "Revised Corporation Code of the Philippines";
     shortName := lit "RA 11232";
     status := in_force;
     issuedDate := lit "2019-02-20";
     inForceDate := lit "2019-02-23";
     url := lit "https://lawphil.net/statutes/repacts/ra2019/ra_11232_2019.html";
     description := Some
       (lit "Modernised corporate governance framework; introduces perpetual " ++
        lit "corporate existence, one-person corporations, and remote board " ++
        lit "meetings") |}.

Definition act_ra_7394_consumer_act : ActIndexEntry :=
  {| id := lit "ra-7394-consumer-act";
     title := lit "Consumer Act of the Philippines";
     titleEn := lit "Consumer Act of the Philippines";
     shortName := lit "RA 7394";
     status := in_force;
     issuedDate := lit "1992-04-13";
     inForceDate := lit "1992-04-13";
     url := lit "https://lawphil.net/statutes/repacts/ra1992/ra_7394_1992.html";
     description := Some
       (lit "Comprehensive consumer protection legislation covering product " ++
        lit "quality, labelling, warranties, price regulation, and consumer redress") |}.

Definition act_constitution_1987 : ActIndexEntry :=
  {| id := lit "constitution-1987";
     title := lit "1987 Constitution of the Republic of the Philippines";
     titleEn := lit "1987 Constitution of the Republic of the Philippines";
     shortName := lit "1987 Constitution";
     status := in_force;
     issuedDate := lit "1987-02-02";
     inForceDate := lit "1987-02-02";
     url := lit "https://lawphil.net/consti/cons1987.html";
     description := Some
       (lit "Supreme law of the Philippines; Article III (Bill of Rights) protects " ++
        lit "privacy of communication and correspondence (Sec. 3), due process " ++
        lit "(Sec. 1), and freedom of expression (Sec. 4)") |}.

Definition act_act_3815_revised_penal_code : ActIndexEntry :=
  {| id := lit "act-3815-revised-penal-code";
     title := lit "Revised Penal Code";
     titleEn := lit "Revised Penal Code";
     shortName := lit "Act No. 3815";
     status := in_force;
     issuedDate := lit "1930-12-08";
     inForceDate := lit "1932-01-01";
     url := lit "https://lawphil.net/statutes/acts/act1930/act_3815_1930.html";
     description := Some
       (lit "Primary criminal law of the Philippines; covers offences against " ++
        lit "persons, property, public interest, and public order; Articles " ++
        lit "relevant to computer fraud and electronic document forgery") |}.

Definition act_ra_8484_access_devices_regulation : ActIndexEntry :=
  {| id := lit "ra-8484-access-devices-regulation";
     title := lit "Access Devices Regulation Act of 1998";
     titleEn := lit "Access Devices Regulation Act of 1998";
     shortName := lit "RA 8484";
     status := in_force;
     issuedDate := lit "1998-02-11";
     inForceDate := lit "1998-02-11";
     url := lit "https://lawphil.net/statutes/repacts/ra1998/ra_8484_1998.html";
     description := Some
       (lit "Regulates access devices (credit cards, debit cards, account " ++
        lit "numbers); penalises fraud, counterfeiting, and unauthorised use of " ++
        lit "access devices") |}.

Definition act_ra_9995_anti_voyeurism : ActIndexEntry :=
  {| id := lit "ra-9995-anti-voyeurism";
     title := lit "Anti-Photo and Video Voyeurism Act of 2009";
     titleEn := lit "Anti-Photo and Video Voyeurism Act of 2009";
     shortName := lit "RA 9995";
     status := in_force;
     issuedDate := lit "2010-02-15";
     inForceDate := lit "2010-02-15";
     url := lit "https://lawphil.net/statutes/repacts/ra2010/ra_9995_2010.html";
     description := Some
       (lit "Prohibits taking, copying, reproducing, selling, or distributing " ++
        lit "photos, videos, or recordings of sexual acts without consent; " ++
        lit "addresses revenge porn and non-consensual intimate images") |}.

(** Pre-configured list of key Philippine laws to ingest. *)
Definition KEY_PHILIPPINE_ACTS : list ActIndexEntry :=
  [act_ra_10173_data_privacy_act;
   act_ra_10175_cybercrime_prevention;
   act_ra_11934_sim_registration;
   act_ra_8792_e_commerce;
   act_ra_11232_revised_corporation_code;
   act_ra_7394_consumer_act;
   act_constitution_1987;
   act_act_3815_revised_penal_code;
   act_ra_8484_access_devices_regulation;
   act_ra_9995_anti_voyeurism].

End Parser.

(** ** Deduplication through a map *)

(** The scheme of the two loops that end the parser: a map from key to
    element in which a later element replaces the stored one only when it is
    strictly larger. *)
Module Dedup.
Import Parser.

Section KeepLargest.
Context {A : Type} (key : A -> str) (size : A -> nat).

Definition keep_step (m : list (str * A)) (x : A) : list (str * A) :=
  match map_get (key x) m with
  | Some existing => if size existing <? size x then map_set (key x) x m else m
  | None => map_set (key x) x m
  end.

Definition keep_largest (l : list A) : list A := map_values (foldl keep_step [] l).

(** [v] is the first of the largest elements of [l] with key [k]. *)
Definition winner (l : list A) (k : str) (v : A) : Prop :=
  exists l1 l2, l = l1 ++ v :: l2 /\ key v = k
    /\ (forall q, q ∈ l1 -> key q = k -> size q < size v)
    /\ (forall q, q ∈ l2 -> key q = k -> size q <= size v).

(** The map [m] holds, for every key seen in [l], its winner. *)
Definition tracks (l : list A) (m : list (str * A)) : Prop :=
  NoDup m.*1 /\
  forall k, match map_get k m with
            | Some v => winner l k v
            | None => forall x, x ∈ l -> key x <> k
            end.

End KeepLargest.

End Dedup.

(** ** Numbers in text *)

Fixpoint digits_of_uint (d : Decimal.uint) : str :=
  match d with
  | Decimal.Nil => []
  | Decimal.D0 d' => 48%N :: digits_of_uint d'
  | Decimal.D1 d' => 49%N :: digits_of_uint d'
  | Decimal.D2 d' => 50%N :: digits_of_uint d'
  | Decimal.D3 d' => 51%N :: digits_of_uint d'
  | Decimal.D4 d' => 52%N :: digits_of_uint d'
  | Decimal.D5 d' => 53%N :: digits_of_uint d'
  | Decimal.D6 d' => 54%N :: digits_of_uint d'
  | Decimal.D7 d' => 55%N :: digits_of_uint d'
  | Decimal.D8 d' => 56%N :: digits_of_uint d'
  | Decimal.D9 d' => 57%N :: digits_of_uint d'
  end.

(** An integer in a template literal: its decimal digits, with a minus
    sign when negative. *)
Definition decimal (z : Z) : str :=
  match Z.to_int z with
  | Decimal.Pos d => digits_of_uint d
  | Decimal.Neg d => 45%N :: digits_of_uint d
  end.

Fixpoint digits_value (acc : Z) (s : str) : Z :=
  match s with
  | c :: s' => if is_digit c then digits_value (10 * acc + (Z.of_N c - 48))%Z s' else acc
  | [] => acc
  end.

(** [parseInt(s, 10)]: leading white space, an optional sign, then the
    longest run of digits; [None] stands for [NaN].  The value is the exact
    integer, which is what the double holds up to 2^53. *)
Definition parseInt (s : str) : option Z :=
  let s := drop_ws s in
  let '(neg, s) :=
    match s with
    | c :: s' => if (c =? 45)%N then (true, s')
                 else if (c =? 43)%N then (false, s') else (false, s)
    | [] => (false, s)
    end in
  match s with
  | c :: _ => if is_digit c
              then Some (if neg then (- digits_value 0 s)%Z else digits_value 0 s)
              else None
  | [] => None
  end.

(** ** The rate-limited HTTP client ([scripts/lib/fetcher.ts]) *)

Module Fetcher.

Definition MIN_DELAY_MS : Z := 500.

Record FetchResult : Type := {
  status : Z;
  body : str;
  contentType : str;
  url : str
}.

(** Reading the body of a response, [response.text()]. *)
Inductive BodyRead : Type :=
| Text (s : str)
| ReadError (message : str).

(** What one [fetch] attempt meets: a rejection (connection refused, DNS
    failure, the abort after 30 seconds), or a response. *)
Inductive Outcome : Type :=
| NetworkError (message : str)
| Response (status : Z) (text : BodyRead) (contentTypeHeader : option str) (finalUrl : str).

(** The surroundings of the process: what the [n]-th request of the run
    meets and how long it takes, and by how much the [k]-th timer fires
    late.  Durations are in milliseconds and never negative. *)
Record Env : Type := {
  net : nat -> str -> Outcome;
  latency : nat -> N;
  timer_lag : nat -> N
}.

(** The state the client reads and writes: the clock ([Date.now()]), the
    module variable [lastRequestTime], counters of the requests sent and the
    timers set, and the times at which the requests were sent, oldest
    first. *)
Record World : Type := {
  now : Z;
  lastRequestTime : Z;
  requests : nat;
  timers : nat;
  sent : list Z
}.

Definition initial_world (t0 : Z) : World :=
  {| now := t0; lastRequestTime := 0; requests := 0; timers := 0; sent := [] |}.

(** [await new Promise(resolve => setTimeout(resolve, ms))] *)
Definition sleep (env : Env) (ms : Z) (w : World) : World :=
  {| now := now w + ms + Z.of_N (timer_lag env (timers w));
     lastRequestTime := lastRequestTime w;
     requests := requests w;
     timers := S (timers w);
     sent := sent w |}.

Definition rateLimit (env : Env) (w : World) : World :=
  let elapsed := (now w - lastRequestTime w)%Z in
  let w1 := if (elapsed <? MIN_DELAY_MS)%Z
            then sleep env (MIN_DELAY_MS - elapsed) w else w in
  {| now := now w1;
     lastRequestTime := now w1;
     requests := requests w1;
     timers := timers w1;
     sent := sent w1 |}.

(** [await fetch(url, ...)] and the reading of the body: one request. *)
Definition send (env : Env) (target : str) (w : World) : Outcome * World :=
  (net env (requests w) target,
   {| now := now w + Z.of_N (latency env (requests w));
      lastRequestTime := lastRequestTime w;
      requests := S (requests w);
      timers := timers w;
      sent := sent w ++ [now w] |}).

(** How a call ends. *)
Inductive Completion (A : Type) : Type :=
| Returned (a : A)
| Thrown (message : str).
Arguments Returned {A} a.
Arguments Thrown {A} message.

Definition backoff (attempt : Z) : Z := (2 ^ (attempt + 1) * 1000)%Z.

(** The retry loop of [fetchWithRateLimit]; [n] is the number of
    iterations left, [maxRetries + 1 - attempt]. *)
Fixpoint attempt_loop (env : Env) (target : str) (maxRetries : Z)
    (n : nat) (attempt : Z) (w : World) : Completion FetchResult * World :=
  match n with
  | 0 =>
      (Thrown (lit "Failed to fetch " ++ target ++ lit " after "
                 ++ decimal maxRetries ++ lit " retries"), w)
  | S n' =>
      let '(o, w1) := send env target w in
      let retry := fun _ : unit =>
        attempt_loop env target maxRetries n' (attempt + 1)
          (sleep env (backoff attempt) w1) in
      match o with
      | Response st rd ct final =>
          if ((st =? 429) || (500 <=? st))%Z && (attempt <? maxRetries)%Z
          then retry tt
          else
            match rd with
            | Text b =>
                (Returned {| status := st; body := b;
                             contentType := default [] ct; url := final |}, w1)
            | ReadError e =>
                if (attempt <? maxRetries)%Z then retry tt else (Thrown e, w1)
            end
      | NetworkError e =>
          if (attempt <? maxRetries)%Z then retry tt else (Thrown e, w1)
      end
  end.

(** Fetch a URL with rate limiting; retries on 429 and 5xx and on
    network errors with exponential backoff. *)
Definition fetchWithRateLimit (env : Env) (target : str) (maxRetries : Z)
    (w : World) : Completion FetchResult * World :=
  attempt_loop env target maxRetries (Z.to_nat (maxRetries + 1)) 0 (rateLimit env w).

(** The default of the second parameter. *)
Definition DEFAULT_MAX_RETRIES : Z := 3.



(** The endpoint answers every request to [target] with status 503. *)
Definition always_503 (env : Env) (target : str) : Prop :=
  forall n, exists b ct final, net env n target = Response 503 (Text b) ct final.

End Fetcher.

(** ** The census script ([scripts/census.ts]) *)

Module Census.
Import Regex.

Definition BASE_URL : str := lit "https://lawphil.net/statutes/repacts/".

Inductive Category : Type := republic_act | constitution | act.
Inductive Classification : Type := ingestable | inaccessible | metadata_only.

Record CensusLaw : Type := {
  id : str;
  raNumber : Z;
  year : Z;
  title : str;
  date : str;
  url : str;
  category : Category;
  classification : Classification
}.

(** Generate a kebab-case ID from the RA number. *)
Definition raToId (raNumber : Z) : str := lit "ra-" ++ decimal raNumber.

(** Strip HTML tags from text. *)
Definition stripHtml (html : str) : str :=
  let s := replace_all (seq [c_is (ch "<"); plus (c_not [ch ">"]); c_is (ch ">")]) [32%N] html in
  let s := replace_all (text "&nbsp;") [32%N] s in
  let s := replace_all (text "&amp;") (lit "&") s in
  let s := replace_all (text "&lt;") (lit "<") s in
  let s := replace_all (text "&gt;") (lit ">") s in
  let s := replace_all (text "&quot;") [34%N] s in
  let s := replace_all (text "&#39;") (lit "'") s in
  let s := replace_all (text "&rsquo;") [8217%N] s in
  let s := replace_all (text "&ldquo;") [8220%N] s in
  let s := replace_all (text "&rdquo;") [8221%N] s in
  let s := replace_all (text "&mdash;") [8212%N] s in
  let s := replace_all (text "&ndash;") [8211%N] s in
  let s := replace_all (plus ws) [32%N] s in
  trim s.

(** The pattern of a table row holding a Republic Act link, flags [gi].
    Captures: 1 the link target, 2 and 3 the number and year in it, 4 the
    number in the link text, 5 the date, 6 the title cell. *)
Definition rowRe : re :=
  seq [text_i "<tr"; star (c_not [ch ">"]); c_is (ch ">"); star ws;
       text_i "<td>"; star ws; text_i "<a"; plus ws; text_i "href="; c_is 34%N;
       Grp 1 (seq [text_i "ra"; times 4 4 digit; c_is (ch "/"); text_i "ra_";
                   Grp 2 (plus digit); c_is (ch "_"); Grp 3 (times 4 4 digit);
                   text_i ".html"]);
       c_is 34%N; star (c_not [ch ">"]); c_is (ch ">");
       text_i "Republic Act No."; star ws; Grp 4 (plus digit); text_i "</a>";
       star ws; text_i "<br"; star ws; opt (c_is (ch "/")); c_is (ch ">"); star ws;
       Grp 5 (plus (c_not [ch "<"])); text_i "</td>"; star ws; text_i "<td>";
       Grp 6 (lazy_star c_any); text_i "</td>"].

(** The pattern of a date such as [October 17, 2024]: captures the month
    name, the day and the year. *)
Definition datePattern : re :=
  seq [Bol false; Grp 1 (plus word); plus ws; Grp 2 (times 1 2 digit);
       opt (c_is (ch ",")); plus ws; Grp 3 (times 4 4 digit); Eol false].

Definition group_text (s : str) (m : rmatch) (i : nat) : str :=
  default [] (group s m i).

(** [s.padStart(2, '0')] *)
Definition padStart2 (s : str) : str :=
  match s with
  | [] => lit "00"
  | [c] => [48%N; c]
  | _ => s
  end.

Section WithCaseMapping.

Variable toLowerCase : str -> str.

Definition months : list (str * str) :=
  [(lit "january", lit "01"); (lit "february", lit "02"); (lit "march", lit "03");
   (lit "april", lit "04"); (lit "may", lit "05"); (lit "june", lit "06");
   (lit "july", lit "07"); (lit "august", lit "08"); (lit "september", lit "09");
   (lit "october", lit "10"); (lit "november", lit "11"); (lit "december", lit "12")].

Fixpoint lookup_month (key : str) (table : list (str * str)) : option str :=
  match table with
  | [] => None
  | (k, v) :: table' => if str_eqb k key then Some v else lookup_month key table'
  end.

(** Parse the month name to a zero-padded number.  The table is an object
    literal, so the two lower-case names it inherits are found as well and
    come out as the text of what they hold. *)
Definition parseMonth (month : str) : str :=
  let key := toLowerCase month in
  match lookup_month key months with
  | Some v => v
  | None =>
      if str_eqb key (lit "constructor") then lit "function Object() { [native code] }"
      else if str_eqb key (lit "__proto__") then lit "[object Object]"
      else lit "01"
  end.

(** Parse a date string like [October 17, 2024] into [2024-10-17]. *)
Definition parseDate (dateStr : str) : str :=
  let s := trim dateStr in
  match exec datePattern s with
  | None => []
  | Some m =>
      group_text s m 3 ++ lit "-" ++ parseMonth (group_text s m 1) ++ lit "-"
        ++ padStart2 (group_text s m 2)
  end.

(** The body of the row loop up to the duplicate check: the entry a row
    would contribute, unless one of its numbers is [NaN]. *)
Definition law_of_row (html : str) (m : rmatch) : option CensusLaw :=
  let href := group_text html m 1 in
  let dateStr := trim (group_text html m 5) in
  let rawTitle := stripHtml (group_text html m 6) in
  match parseInt (group_text html m 4), parseInt (group_text html m 3) with
  | Some raNumber, Some year =>
      Some {| id := raToId raNumber;
              raNumber := raNumber;
              year := year;
              title := rawTitle;
              date := parseDate dateStr;
              url := lit "https://lawphil.net/statutes/repacts/" ++ href;
              category := republic_act;
              classification := ingestable |}
  | _, _ => None
  end.

(** The entries the rows of the page would contribute, in document
    order. *)
Definition row_entries (html : str) : list CensusLaw :=
  omap (law_of_row html) (exec_all rowRe html).

(** One iteration of the row loop on the arrays [laws] and [seen]. *)
Definition row_step (html : str) (st : list CensusLaw * gset str) (m : rmatch)
    : list CensusLaw * gset str :=
  match law_of_row html m with
  | None => st
  | Some law =>
      if bool_decide (id law ∈ st.2) then st
      else (st.1 ++ [law], {[ id law ]} ∪ st.2)
  end.

(** Parse the Republic Acts index page and extract all RA entries. *)
Definition parseIndexPage (html : str) : list CensusLaw :=
  (foldl (row_step html) ([], ∅) (exec_all rowRe html)).1.

Definition constitution_1987 : CensusLaw :=
  {| id := lit "constitution-1987";
     raNumber := 0;
     year := 1987;
     title := lit "1987 Constitution of the Republic of the Philippines";
     date := lit "1987-02-02";
     url := lit "https://lawphil.net/consti/cons1987.html";
     category := constitution;
     classification := ingestable |}.

Definition revised_penal_code : CensusLaw :=
  {| id := lit "act-3815-revised-penal-code";
     raNumber := 0;
     year := 1930;
     title := lit "Revised Penal Code (Act No. 3815)";
     date := lit "1930-12-08";
     url := lit "https://lawphil.net/statutes/acts/act1930/act_3815_1930.html";
     category := act;
     classification := ingestable |}.

Definition is_republic_act (l : CensusLaw) : bool :=
  match category l with republic_act => true | _ => false end.

(** The comparator of the final sort: Republic Acts first, by descending
    number. *)
Definition compare_laws (a b : CensusLaw) : Z :=
  if negb (is_republic_act a) && is_republic_act b then 1
  else if is_republic_act a && negb (is_republic_act b) then (-1)
  else (raNumber b - raNumber a)%Z.

(** [Array.prototype.sort] with a comparator: a stable sort. *)
Fixpoint sort_insert {A : Type} (cmp : A -> A -> Z) (x : A) (sorted : list A) : list A :=
  match sorted with
  | [] => [x]
  | y :: rest => if (cmp y x <=? 0)%Z then y :: sort_insert cmp x rest else x :: y :: rest
  end.

Definition sort {A : Type} (cmp : A -> A -> Z) (l : list A) : list A :=
  foldl (fun sorted x => sort_insert cmp x sorted) [] l.

(** The [laws] array that [main] writes to the census file, or [None]
    when the run ends with exit code 1. *)
Definition enumerate (fetched : Fetcher.Completion Fetcher.FetchResult)
    : option (list CensusLaw) :=
  match fetched with
  | Fetcher.Thrown _ => None
  | Fetcher.Returned result =>
      if bool_decide (Fetcher.status result = 200%Z)
      then Some (sort compare_laws
                   (parseIndexPage (Fetcher.body result)
                      ++ [constitution_1987; revised_penal_code]))
      else None
  end.

Definition main (env : Fetcher.Env) (w : Fetcher.World) : option (list CensusLaw) :=
  enumerate (Fetcher.fetchWithRateLimit env BASE_URL Fetcher.DEFAULT_MAX_RETRIES w).1.

End WithCaseMapping.

(** The row loop on entries: the first entry of every identifier is kept. *)
Definition enter (st : list CensusLaw * gset str) (law : CensusLaw) :=
  if bool_decide (id law ∈ st.2) then st else (st.1 ++ [law], {[ id law ]} ∪ st.2).

(** [l] is the first entry of [rows] with its identifier. *)
Definition first_of (rows : list CensusLaw) (l : CensusLaw) : Prop :=
  exists before after, rows = before ++ l :: after /\ forall q, q ∈ before -> id q <> id l.

(** The state of the row loop after [rows]. *)
Definition kept (rows : list CensusLaw) (st : list CensusLaw * gset str) : Prop :=
  (forall x, x ∈ st.2 <-> x ∈ id <$> st.1)
  /\ NoDup (id <$> st.1)
  /\ (forall l, l ∈ st.1 -> first_of rows l)
  /\ (forall r, r ∈ rows -> id r ∈ id <$> st.1).

End Census.

(** ** The ingestion pipeline ([scripts/ingest.ts]) *)

Module Ingest.
Import Parser.

Record Args : Type := {
  limit : option Z;
  skipFetch : bool
}.

(** The loop of [parseArgs] from index [i] on.  A limit that is [null] or
    [NaN] is [None]: the script only tests it for truth. *)
Fixpoint parseArgs_from (args : list str) (acc : Args) : Args :=
  match args with
  | [] => acc
  | a :: args' =>
      if str_eqb a (lit "--limit") then
        match args' with
        | v :: args'' =>
            match v with
            | [] => parseArgs_from args' acc
            | _ => parseArgs_from args''
                     {| limit := parseInt v; skipFetch := skipFetch acc |}
            end
        | [] => acc
        end
      else if str_eqb a (lit "--skip-fetch") then
        parseArgs_from args' {| limit := limit acc; skipFetch := true |}
      else parseArgs_from args' acc
  end.

Definition parseArgs (argv : list str) : Args :=
  parseArgs_from argv {| limit := None; skipFetch := false |}.

(** Create a metadata-only seed when fetching or parsing fails. *)
Definition createFallbackSeed (act : ActIndexEntry) : ParsedAct :=
  {| a_id := id act;
     a_type := statute;
     a_title := title act;
     a_title_en := titleEn act;
     a_short_name := shortName act;
     a_status := status act;
     a_issued_date := issuedDate act;
     a_in_force_date := inForceDate act;
     a_url := url act;
     a_description := description act;
     provisions := [];
     definitions := [] |}.

(** The two data directories: the seed file and the source file of an act
    are the entries named after its [id]. *)
Record FileSystem : Type := {
  seedFiles : gmap str ParsedAct;
  sourceFiles : gmap str str
}.

Record ResultRow : Type := {
  r_act : str;
  r_provisions : nat;
  r_definitions : nat;
  r_status : str
}.

(** The variables of [fetchAndParseActs], the files, the state of the
    HTTP client, and the records handed to [writeFileSync] for a seed file,
    in the order they were written. *)
Record RunState : Type := {
  processed : nat;
  skipped : nat;
  failed : nat;
  totalProvisions : nat;
  totalDefinitions : nat;
  results : list ResultRow;
  files : FileSystem;
  world : Fetcher.World;
  written : list ParsedAct
}.

Definition initial_state (fs : FileSystem) (w : Fetcher.World) : RunState :=
  {| processed := 0; skipped := 0; failed := 0;
     totalProvisions := 0; totalDefinitions := 0;
     results := []; files := fs; world := w; written := [] |}.

Definition write_seed (act : ActIndexEntry) (record : ParsedAct) (fs : FileSystem) : FileSystem :=
  {| seedFiles := <[ id act := record ]> (seedFiles fs); sourceFiles := sourceFiles fs |}.

Definition write_source (act : ActIndexEntry) (html : str) (fs : FileSystem) : FileSystem :=
  {| seedFiles := seedFiles fs; sourceFiles := <[ id act := html ]> (sourceFiles fs) |}.

(** The seed already exists and the run is in skip-fetch mode. *)
Definition reuse_seed (act : ActIndexEntry) (existing : ParsedAct) (st : RunState) : RunState :=
  let provCount := length (provisions existing) in
  let defCount := length (definitions existing) in
  {| processed := S (processed st);
     skipped := S (skipped st);
     failed := failed st;
     totalProvisions := totalProvisions st + provCount;
     totalDefinitions := totalDefinitions st + defCount;
     results := results st ++
       [{| r_act := shortName act; r_provisions := provCount;
           r_definitions := defCount; r_status := lit "cached" |}];
     files := files st;
     world := world st;
     written := written st |}.

(** The two places that write a fallback seed for a failed fetch. *)
Definition write_fallback (act : ActIndexEntry) (statusText : str)
    (w : Fetcher.World) (st : RunState) : RunState :=
  let fallback := createFallbackSeed act in
  {| processed := S (processed st);
     skipped := skipped st;
     failed := S (failed st);
     totalProvisions := totalProvisions st;
     totalDefinitions := totalDefinitions st;
     results := results st ++
       [{| r_act := shortName act; r_provisions := 0;
           r_definitions := 0; r_status := statusText |}];
     files := write_seed act fallback (files st);
     world := w;
     written := written st ++ [fallback] |}.

Section WithSurroundings.

Variable toLowerCase : str -> str.
Variable toUpperCase : str -> str.
Variable env : Fetcher.Env.

(** Parse the page and write the seed. *)
Definition parse_and_write (act : ActIndexEntry) (html : str)
    (fs : FileSystem) (w : Fetcher.World) (st : RunState) : RunState :=
  let parsed := parsePhilippineHtml toLowerCase toUpperCase html act in
  {| processed := S (processed st);
     skipped := skipped st;
     failed := failed st;
     totalProvisions := totalProvisions st + length (provisions parsed);
     totalDefinitions := totalDefinitions st + length (definitions parsed);
     results := results st ++
       [{| r_act := shortName act; r_provisions := length (provisions parsed);
           r_definitions := length (definitions parsed); r_status := lit "OK" |}];
     files := write_seed act parsed fs;
     world := w;
     written := written st ++ [parsed] |}.

(** One iteration of the loop over the acts. *)
Definition process_act (skip : bool) (st : RunState) (act : ActIndexEntry) : RunState :=
  match (if skip then seedFiles (files st) !! id act else None) with
  | Some existing => reuse_seed act existing st
  | None =>
      match (if skip then sourceFiles (files st) !! id act else None) with
      | Some html => parse_and_write act html (files st) (world st) st
      | None =>
          match Fetcher.fetchWithRateLimit env (url act)
                  Fetcher.DEFAULT_MAX_RETRIES (world st) with
          | (Fetcher.Returned result, w) =>
              if bool_decide (Fetcher.status result = 200%Z)
              then parse_and_write act (Fetcher.body result)
                     (write_source act (Fetcher.body result) (files st)) w st
              else write_fallback act
                     (lit "HTTP " ++ decimal (Fetcher.status result) ++ lit " (fallback)")
                     w st
          | (Fetcher.Thrown _, w) =>
              write_fallback act (lit "FETCH FAILED (fallback)") w st
          end
      end
  end.

Definition fetchAndParseActs (acts : list ActIndexEntry) (skip : bool)
    (fs : FileSystem) (w : Fetcher.World) : RunState :=
  foldl (process_act skip) (initial_state fs w) acts.

(** [arr.slice(0, n)] *)
Definition slice0 {A : Type} (n : Z) (l : list A) : list A :=
  if (n <? 0)%Z then take (Z.to_nat (Z.of_nat (length l) + n)) l
  else take (Z.to_nat n) l.

(** The work list of [main]. *)
Definition selected_acts (lim : option Z) : list ActIndexEntry :=
  match lim with
  | Some n => if (n =? 0)%Z then KEY_PHILIPPINE_ACTS else slice0 n KEY_PHILIPPINE_ACTS
  | None => KEY_PHILIPPINE_ACTS
  end.

Definition main (argv : list str) (fs : FileSystem) (w : Fetcher.World) : RunState :=
  let args := parseArgs argv in
  fetchAndParseActs (selected_acts (limit args)) (skipFetch args) fs w.

End WithSurroundings.

(** The fetch of a document failed: it raised, or the status is not 200. *)
Definition fetch_failed (c : Fetcher.Completion Fetcher.FetchResult) : Prop :=
  match c with
  | Fetcher.Thrown _ => True
  | Fetcher.Returned result => Fetcher.status result <> 200%Z
  end.

(** The act is not served from the files of an earlier run. *)
Definition is_fetched (skip : bool) (fs : FileSystem) (act : ActIndexEntry) : Prop :=
  skip = true -> seedFiles fs !! id act = None /\ sourceFiles fs !! id act = None.



Definition no_files : FileSystem := {| seedFiles := ∅; sourceFiles := ∅ |}.

End Ingest.

(** ** Concrete inputs *)

Module Examples.
Import Parser.

(** A text all of whose code units are ASCII. *)
Definition is_ascii (s : str) : Prop := Forall (fun c => (c < 128)%N) s.

(** The scenario of the specification: the heading of a definition
    section, an em dash, and one quoted term with its definition. *)
Definition scenario_text : str :=
  lit "Section 3. Definition of Terms. " ++ [8212%N] ++ lit " (a) " ++ [34%N]
    ++ lit "Personal information" ++ [34%N] ++ lit " refers to any information...;".

Definition scenario_page : str :=
  lit "<html><head><title>R.A. 10173</title></head><body>" ++ nl
    ++ lit "<p>" ++ scenario_text
    ++ lit " whether recorded in a material form or not, from which the identity"
    ++ lit " of an individual is apparent.</p>" ++ nl
    ++ lit "</body></html>".

(** Two section markers with the same number, each followed by one
    letter only. *)
Definition short_twins : str := lit "Sec. 1.x" ++ nl ++ lit "Sec. 1.y".

(** The same number met twice with enough text, the second time with
    more. *)
Definition long_twins : str :=
  lit "Section 1. Short Title. - This Act is the Example Act." ++ nl
    ++ lit "Section 2. Scope. - It applies everywhere." ++ nl
    ++ lit "Section 1. Short Title. - This Act shall be known as the Example Act of 2024.".

(** A marker without text, then a section. *)
Definition short_then_long : str :=
  lit "Sec. 1.x" ++ nl ++ lit "Sec. 2. Scope. - It applies everywhere.".

Definition any_act : ActIndexEntry := act_ra_10173_data_privacy_act.

(** A row of the Republic Acts index. *)
Definition index_row (year number date title : str) : str :=
  lit "<tr class=xy>" ++ nl ++ lit "<td><a href=" ++ [34%N] ++ lit "ra" ++ year
    ++ lit "/ra_" ++ number ++ lit "_" ++ year ++ lit ".html" ++ [34%N]
    ++ lit ">Republic Act No. " ++ number ++ lit "</a><br>" ++ date ++ lit "</td>" ++ nl
    ++ lit "<td>" ++ title ++ lit "</td>" ++ nl ++ lit "<td></td></tr>" ++ nl.

(** An index page that lists number 10173 twice, under two years. *)
Definition index_page : str :=
  lit "<html><body><table>" ++ nl
    ++ index_row (lit "2024") (lit "12036") (lit "October 17, 2024")
         (lit "An Act Creating Four (4) Additional Branches")
    ++ index_row (lit "2012") (lit "10173") (lit "August 15, 2012")
         (lit "Data Privacy Act of 2012")
    ++ index_row (lit "2013") (lit "10173") (lit "August 15, 2013")
         (lit "Data Privacy Act, listed again")
    ++ lit "</table></body></html>".

Definition index_response : Fetcher.FetchResult :=
  {| Fetcher.status := 200; Fetcher.body := index_page;
     Fetcher.contentType := lit "text/html"; Fetcher.url := Census.BASE_URL |}.

(** Every request is answered with status 503. *)
Definition env_503 : Fetcher.Env :=
  {| Fetcher.net := fun _ target =>
       Fetcher.Response 503 (Fetcher.Text (lit "Service Unavailable")) None target;
     Fetcher.latency := fun _ => 40%N;
     Fetcher.timer_lag := fun _ => 1%N |}.

(** Every request is answered with the scenario page. *)
Definition env_ok : Fetcher.Env :=
  {| Fetcher.net := fun _ target =>
       Fetcher.Response 200 (Fetcher.Text scenario_page) (Some (lit "text/html")) target;
     Fetcher.latency := fun _ => 40%N;
     Fetcher.timer_lag := fun _ => 0%N |}.

Definition start_time : Z := 1700000000000.



Definition first_candidate (html : str) : Candidate :=
  default {| k_ref := []; k_chapter := []; k_num := []; k_title := []; k_content := [] |}
    (head (candidates ascii_toLowerCase ascii_toUpperCase html)).

Definition first_definition (html : str) : ParsedDefinition :=
  default {| term := []; definition := []; source_provision := None |}
    (head (definitions
             (parsePhilippineHtml ascii_toLowerCase ascii_toUpperCase html any_act))).


End Examples.

(** ** What the matcher guarantees *)

Module Matching.
Import Regex.

(** Every match of [r] consumes a code unit of the class [q]. *)
Fixpoint needs (q : char -> bool) (r : re) : Prop :=
  match r with
  | Chr p => forall c, p c = true -> q c = true
  | Cat a b => needs q a \/ needs q b
  | Alt a b => needs q a /\ needs q b
  | Rep _ lo hi a => 0 < lo /\ hi <> Some 0 /\ needs q a
  | Grp _ a => needs q a
  | _ => False
  end.

(** A runner calls its continuation on what is left of the input. *)
Definition runs_within (ra : kont -> mstate -> option mstate) : Prop :=
  forall k x z, ra k x = Some z ->
    exists y, k y = Some z /\ rest y `suffix_of` rest x.

(** The matches of a global scan on the text between [lo] and [hi]: each
    starts where the search resumed or later, spans at least [m] code units,
    and the next search resumes at its end, or one code unit after its start
    when it is empty. *)
Fixpoint chained (m lo hi : nat) (ms : list rmatch) : Prop :=
  match ms with
  | [] => True
  | x :: ms' =>
      lo <= m_index x /\ m_index x + m <= m_end x /\ m_end x <= hi
      /\ chained m (Nat.max (m_end x) (S (m_index x))) hi ms'
  end.

End Matching.

(** ** The layout of a parsed page *)

Module Layout.
Import Regex Parser.


(** The text does not start with a code unit of the class [q]. *)
Definition starts_with_none (q : char -> bool) (s : str) : Prop :=
  match s with
  | c :: _ => q c = false
  | [] => True
  end.

(** The name of the last chapter heading, in the order they were found,
    that starts at or before index [start]. *)
Definition latest_chapter (chapters : list Chapter) (start : nat) : option str :=
  c_name <$> last (filter (fun c => c_index c <= start) chapters).

(** Indices in non-decreasing order, none below [lo]. *)
Fixpoint rising (lo : nat) (l : list nat) : Prop :=
  match l with
  | [] => True
  | i :: l' => lo <= i /\ rising i l'
  end.

(** [value || undefined] for a string. *)
Definition or_undefined (s : str) : option str :=
  match s with [] => None | _ => Some s end.

(** What a candidate takes from its section start: the number, the
    reference key, and the latest chapter heading at or before it. *)
Definition from_start (toLowerCase : str -> str) (chs : list Chapter)
    (c : Candidate) (st : SectionStart) : Prop :=
  k_num c = sectionNum st
  /\ k_ref c = lit "sec" ++ toLowerCase (sectionNum st)
  /\ k_chapter c = default [] (latest_chapter chs (s_index st)).

End Layout.

(** ** Outcomes of the retry loop *)

Module Retries.
Import Fetcher.

(** A status on which the call tries again: 429 or 5xx. *)
Definition retried_status (st : Z) : bool := ((st =? 429) || (500 <=? st))%Z.

(** An attempt that ends the call whatever the attempt number: a response
    with another status whose body can be read. *)
Definition settles (o : Outcome) : bool :=
  match o with
  | Response st (Text _) _ _ => negb (retried_status st)
  | _ => false
  end.

(** The attempt failed with the error [e]: the request itself, or the
    reading of the body. *)
Definition failed_with (e : str) (o : Outcome) : Prop :=
  o = NetworkError e \/ exists st ct final, o = Response st (ReadError e) ct final.

(** The result built from a response. *)
Definition result_of (st : Z) (b : str) (ct : option str) (final : str) : FetchResult :=
  {| status := st; body := b; contentType := default [] ct; url := final |}.


End Retries.

(** ** Runs of the ingestion *)

Module Runs.
Import Parser Ingest.

(** Every listed act has a stored seed. *)
Definition all_seeded (acts : list ActIndexEntry) (fs : FileSystem) : Prop :=
  forall act, act ∈ acts -> is_Some (seedFiles fs !! id act).

(** The flags of the command line. *)
Definition flag_limit : str := lit "--limit".
Definition flag_skip_fetch : str := lit "--skip-fetch".

End Runs.

(** ** The statistics of the census ([scripts/census.ts], the end of [main]) *)

Module CensusReport.
Import Regex Census.

Record CensusStats : Type := {
  total : nat;
  class_ingestable : nat;
  class_inaccessible : nat;
  class_metadata_only : nat;
  republic_acts : nat;
  special_entries : nat;
  year_range : str
}.

Definition has_class (c : Classification) (l : CensusLaw) : bool :=
  match classification l, c with
  | ingestable, ingestable | inaccessible, inaccessible
  | metadata_only, metadata_only => true
  | _, _ => false
  end.

(** [array.filter(f).length] *)
Definition count {A : Type} (f : A -> bool) (l : list A) : nat :=
  length (List.filter f l).

(** [Math.min(...years)] and [Math.max(...years)] of a non-empty array. *)
Definition min_of (first : Z) (others : list Z) : Z := foldl Z.min first others.
Definition max_of (first : Z) (others : list Z) : Z := foldl Z.max first others.

(** The years of the Republic Acts, [minYear] and [maxYear]. *)
Definition ra_years (laws : list CensusLaw) : list Z :=
  year <$> List.filter is_republic_act laws.

Definition minYear (laws : list CensusLaw) : Z :=
  match ra_years laws with
  | [] => 0
  | y :: ys => min_of y ys
  end.

Definition maxYear (laws : list CensusLaw) : Z :=
  match ra_years laws with
  | [] => 0
  | y :: ys => max_of y ys
  end.

(** The [stats] of the census output. *)
Definition census_stats (laws : list CensusLaw) : CensusStats :=
  {| total := length laws;
     class_ingestable := count (has_class ingestable) laws;
     class_inaccessible := count (has_class inaccessible) laws;
     class_metadata_only := count (has_class metadata_only) laws;
     republic_acts := count is_republic_act laws;
     special_entries := count (fun l => negb (is_republic_act l)) laws;
     year_range := decimal (minYear laws) ++ lit "-" ++ decimal (maxYear laws) |}.

(** Numbers in strictly descending order. *)
Fixpoint descending (laws : list CensusLaw) : Prop :=
  match laws with
  | [] => True
  | x :: later => Forall (fun y => (raNumber y < raNumber x)%Z) later /\ descending later
  end.

(** Numbers in descending order, equal ones allowed. *)
Fixpoint weakly_descending (laws : list CensusLaw) : Prop :=
  match laws with
  | [] => True
  | x :: later => Forall (fun y => (raNumber y <= raNumber x)%Z) later
                  /\ weakly_descending later
  end.

(** An entry as the index page gives them. *)
Definition from_index (l : CensusLaw) : Prop :=
  id l = raToId (raNumber l)
  /\ category l = republic_act
  /\ classification l = ingestable
  /\ is_prefix BASE_URL (url l) = true.

End CensusReport.

(** ** Further scenarios *)

Module Scenarios.
Import Parser Examples.

(** The first two requests fail, one without a response and one with
    status 503; every later one is answered with the scenario page. *)
Definition env_flaky : Fetcher.Env :=
  {| Fetcher.net := fun n target =>
       match n with
       | 0 => Fetcher.NetworkError (lit "fetch failed")
       | 1 => Fetcher.Response 503 (Fetcher.Text (lit "Service Unavailable")) None target
       | _ => Fetcher.Response 200 (Fetcher.Text scenario_page) (Some (lit "text/html")) target
       end;
     Fetcher.latency := fun _ => 40%N;
     Fetcher.timer_lag := fun _ => 1%N |}.

(** No request gets a response. *)
Definition env_down : Fetcher.Env :=
  {| Fetcher.net := fun _ _ => Fetcher.NetworkError (lit "fetch failed");
     Fetcher.latency := fun _ => 40%N;
     Fetcher.timer_lag := fun _ => 1%N |}.

Definition first_world : Fetcher.World := Fetcher.initial_world start_time.

(** The response of [env_ok] to a request for the first act. *)
Definition scenario_response : Fetcher.FetchResult :=
  {| Fetcher.status := 200; Fetcher.body := scenario_page;
     Fetcher.contentType := lit "text/html"; Fetcher.url := url any_act |}.

(** A page without any digit. *)
Definition plain_page : str := lit "<html><body><p>Page not found.</p></body></html>".

(** Two chapters with one section each. *)
Definition chaptered_page : str :=
  lit "CHAPTER I" ++ nl ++ lit "General Provisions" ++ nl
    ++ lit "Section 1. Short Title. - This Act shall be known as the Example Act." ++ nl
    ++ lit "CHAPTER II" ++ nl ++ lit "Final Provisions" ++ nl
    ++ lit "Section 2. Effectivity. - This Act takes effect after its publication.".

(** A date cell without a date. *)
Definition undated : str := lit "(date not given)".

Definition first_provision (html : str) : ParsedProvision :=
  default {| provision_ref := []; chapter := None; section := []; p_title := [];
             content := [] |}
    (head (provisions
             (parsePhilippineHtml ascii_toLowerCase ascii_toUpperCase html any_act))).

(** The first definition pushed by the section loop. *)
Definition first_pushed_definition (html : str) : ParsedDefinition :=
  default {| term := []; definition := []; source_provision := None |}
    (head (l_definitions (scan_sections ascii_toLowerCase ascii_toUpperCase html))).

(** The files left by an earlier run that cached the page of the first
    act and wrote no seed. *)
Definition one_source : Ingest.FileSystem :=
  {| Ingest.seedFiles := ∅;
     Ingest.sourceFiles := {[ id any_act := scenario_page ]} |}.

End Scenarios.

(** * Properties *)

(** ** The matcher *)

Module RegexFacts.

Import Regex.

Lemma extends_refl x : extends x x.
Proof. unfold extends; lia. Qed.

Lemma extends_trans x y z : extends x y -> extends y z -> extends x z.
Proof. unfold extends; lia. Qed.

Lemma or_else_Some x y z :
  or_else x y = Some z -> x = Some z \/ y tt = Some z.
Proof. destruct x; simpl; auto. Qed.

Lemma weaken_bound (k : kont) x z a b :
  b <= a ->
  (exists y, k y = Some z /\ extends x y /\ pos x + a <= pos y) ->
  exists y, k y = Some z /\ extends x y /\ pos x + b <= pos y.
Proof.
  intros Hab (y & Hk & He & Hp). exists y. split; [exact Hk|]. split; [exact He|]. lia.
Qed.

Lemma rep_loop_sound m ra gs greedy k :
  sound_runner m ra ->
  forall n lo hi x z,
    rep_loop ra gs greedy k n lo hi x = Some z ->
    exists y, k y = Some z /\ extends x y
      /\ pos x + match hi, lo with Some 0, _ => 0 | _, 0 => 0 | _, S _ => m end <= pos y.
Proof.
  intros Hra n. induction n as [|n IH]; intros lo hi x z H.
  - simpl in H. destruct hi as [[|h]|]; try discriminate.
    exists x. split; [exact H|]. split; [apply extends_refl|lia].
  - assert (Hstop : k x = Some z ->
              exists y, k y = Some z /\ extends x y /\ pos x + 0 <= pos y).
    { intros Hk. exists x. split; [exact Hk|]. split; [apply extends_refl|lia]. }
    assert (Hiter : ra (fun y : mstate =>
                if Nat.eqb lo 0 && Nat.eqb (pos y) (pos x) then None
                else rep_loop ra gs greedy k n (Nat.pred lo) (pred_hi hi) y)
              (clear_caps gs x) = Some z ->
            exists y, k y = Some z /\ extends x y /\ pos x + m <= pos y).
    { intros Hr. apply Hra in Hr. destruct Hr as (y1 & Hd & He & Hp).
      destruct (Nat.eqb lo 0 && Nat.eqb (pos y1) (pos x)); [discriminate|].
      apply IH in Hd. destruct Hd as (y & Hk & He' & _).
      exists y. split; [exact Hk|].
      unfold extends, clear_caps in *. simpl in *. lia. }
    simpl in H.
    destruct hi as [[|h]|]; [by apply Hstop| |];
      (destruct lo as [|lo]; simpl in H;
       [destruct greedy; apply or_else_Some in H; destruct H as [H|H];
          solve [by apply Hstop | apply (weaken_bound k x z m); [lia|by apply Hiter]]
       |by apply Hiter]).
Qed.

(** Soundness of the matcher with respect to positions. *)
Lemma run_sound r : sound_runner (minlen r) (run r).
Proof.
  induction r as [|p|a IHa b IHb|a IHa b IHb|g lo hi a IHa|i a IHa|ml|ml|];
    intros k x z H; cbn [run] in H.
  - exists x. split; [exact H|split; [apply extends_refl|simpl; lia]].
  - destruct (rest x) as [|c tl] eqn:E; [discriminate|].
    destruct (p c); [|discriminate].
    eexists. split; [exact H|]. unfold extends. simpl. rewrite E. simpl. lia.
  - apply IHa in H. destruct H as (y1 & H & E1 & P1).
    apply IHb in H. destruct H as (y & H & E2 & P2).
    exists y. split; [exact H|]. unfold extends in *. simpl. lia.
  - apply or_else_Some in H. destruct H as [H|H].
    + apply IHa in H. destruct H as (y & H & E & P).
      exists y. split; [exact H|]. split; [exact E|]. simpl. lia.
    + apply IHb in H. destruct H as (y & H & E & P).
      exists y. split; [exact H|]. split; [exact E|]. simpl. lia.
  - apply (rep_loop_sound (minlen a)) in H; [|exact IHa].
    destruct H as (y & H & E & P). exists y. split; [exact H|]. split; [exact E|].
    simpl. exact P.
  - apply IHa in H. destruct H as (y & H & E & P).
    eexists. split; [exact H|]. unfold extends in *. simpl. lia.
  - destruct (_ || _); [|discriminate].
    exists x. split; [exact H|split; [apply extends_refl|simpl; lia]].
  - destruct (rest x) as [|c tl] eqn:E.
    + exists x. split; [exact H|split; [apply extends_refl|simpl; lia]].
    + destruct (_ && _); [|discriminate].
      exists x. split; [exact H|split; [apply extends_refl|simpl; lia]].
  - destruct (xorb _ _); [|discriminate].
    exists x. split; [exact H|split; [apply extends_refl|simpl; lia]].
Qed.

(** A match found at [p] ends between [p] and the end of the text, at
    least [minlen r] further on. *)
Lemma try_at_bounds r p pv s m :
  try_at r p pv s = Some m ->
  m_index m = p /\ p + minlen r <= m_end m /\ m_end m <= p + length s.
Proof.
  unfold try_at. destruct (run r Some _) as [z|] eqn:E; [|discriminate].
  intros [= <-]. apply run_sound in E. destruct E as (y & [= ->] & Ex & P).
  unfold extends in Ex. simpl in *. lia.
Qed.

Lemma search_bounds r s : forall p pv m,
  search r p pv s = Some m ->
  p <= m_index m /\ m_index m + minlen r <= m_end m /\ m_end m <= p + length s.
Proof.
  induction s as [|c s IH]; intros p pv m H; simpl in H.
  - destruct (try_at r p pv []) eqn:E; [|discriminate].
    injection H as ->. apply try_at_bounds in E. simpl in *. lia.
  - destruct (try_at r p pv (c :: s)) eqn:E.
    + injection H as ->. apply try_at_bounds in E. simpl in *. lia.
    + apply IH in H. simpl. lia.
Qed.

Lemma exec_bounds r s m :
  exec r s = Some m ->
  m_index m + minlen r <= m_end m /\ m_end m <= length s.
Proof. intros H. apply search_bounds in H. lia. Qed.

(** Every match of a global scan was found by the matcher at its index, on
    the text that remains there. *)
Lemma scan_found r s : forall resume p pv m,
  m ∈ scan r resume p pv s ->
  exists p' pv' s', try_at r p' pv' s' = Some m /\ p' + length s' = p + length s.
Proof.
  induction s as [|c s IH]; intros resume p pv m H; simpl in H.
  - destruct (p <? resume); [by apply elem_of_nil in H|].
    destruct (try_at r p pv []) eqn:E; [|by apply elem_of_nil in H].
    apply list_elem_of_singleton in H. subst. eauto.
  - destruct (p <? resume).
    + apply IH in H. destruct H as (p' & pv' & s' & H & L).
      exists p', pv', s'. split; [exact H|]. simpl. lia.
    + destruct (try_at r p pv (c :: s)) eqn:E.
      * apply elem_of_cons in H. destruct H as [->|H]; [eauto|].
        apply IH in H. destruct H as (p' & pv' & s' & H & L).
        exists p', pv', s'. split; [exact H|]. simpl. lia.
      * apply IH in H. destruct H as (p' & pv' & s' & H & L).
        exists p', pv', s'. split; [exact H|]. simpl. lia.
Qed.

Lemma exec_all_found r s m :
  m ∈ exec_all r s ->
  exists p pv s', try_at r p pv s' = Some m /\ p + length s' = length s.
Proof. intros H. apply scan_found in H. exact H. Qed.


Lemma or_else_ext a1 a2 b1 b2 :
  a1 = a2 -> b1 tt = b2 tt -> or_else a1 b1 = or_else a2 b2.
Proof. intros -> E. destruct a2; simpl; [reflexivity|exact E]. Qed.

Lemma extends_clear gs x y : extends (clear_caps gs x) y <-> extends x y.
Proof. reflexivity. Qed.

Lemma rep_loop_local ra gs greedy :
  local_runner ra ->
  forall n lo hi k1 k2 x,
    (forall y, extends x y -> k1 y = k2 y) ->
    rep_loop ra gs greedy k1 n lo hi x = rep_loop ra gs greedy k2 n lo hi x.
Proof.
  intros Hra n. induction n as [|n IH]; intros lo hi k1 k2 x Hk.
  - simpl. destruct hi as [[|h]|]; try reflexivity. apply Hk, extends_refl.
  - assert (Hx : k1 x = k2 x) by apply Hk, extends_refl.
    assert (Hit : ra (fun y : mstate =>
                if Nat.eqb lo 0 && Nat.eqb (pos y) (pos x) then None
                else rep_loop ra gs greedy k1 n (Nat.pred lo) (pred_hi hi) y)
              (clear_caps gs x)
            = ra (fun y : mstate =>
                if Nat.eqb lo 0 && Nat.eqb (pos y) (pos x) then None
                else rep_loop ra gs greedy k2 n (Nat.pred lo) (pred_hi hi) y)
              (clear_caps gs x)).
    { apply Hra. intros y Hy. destruct (_ && _); [reflexivity|].
      apply IH. intros y' Hy'. apply Hk. apply extends_clear in Hy.
      eapply extends_trans; eassumption. }
    simpl. destruct hi as [[|h]|]; [exact Hx| |];
      (destruct (negb (Nat.eqb lo 0)); [exact Hit|];
       destruct greedy; apply or_else_ext; assumption).
Qed.

Lemma run_local r : local_runner (run r).
Proof.
  induction r as [|p|a IHa b IHb|a IHa b IHb|g lo hi a IHa|i a IHa|ml|ml|];
    intros k1 k2 x Hk; cbn [run].
  - apply Hk, extends_refl.
  - destruct (rest x) as [|c tl] eqn:E; [reflexivity|].
    destruct (p c); [|reflexivity]. apply Hk. unfold extends. simpl. rewrite E. simpl. lia.
  - apply IHa. intros y Hy. apply IHb. intros y' Hy'. apply Hk.
    eapply extends_trans; eassumption.
  - apply or_else_ext; [by apply IHa|by apply IHb].
  - apply rep_loop_local; assumption.
  - apply IHa. intros y Hy. apply Hk. exact Hy.
  - destruct (_ || _); [|reflexivity]. apply Hk, extends_refl.
  - destruct (rest x) as [|c tl]; [apply Hk, extends_refl|].
    destruct (_ && _); [|reflexivity]. apply Hk, extends_refl.
  - destruct (xorb _ _); [|reflexivity]. apply Hk, extends_refl.
Qed.

(** The counter of the quantifier loop is never the reason a match fails:
    any two counters above the required iterations plus the input ahead give
    the same result. *)
Lemma rep_loop_counter ra gs greedy k :
  local_runner ra ->
  forall n1 n2 lo hi x,
    lo + length (rest x) < n1 -> lo + length (rest x) < n2 ->
    rep_loop ra gs greedy k n1 lo hi x = rep_loop ra gs greedy k n2 lo hi x.
Proof.
  intros Hra n1. induction n1 as [|n1 IH]; intros n2 lo hi x H1 H2; [lia|].
  destruct n2 as [|n2]; [lia|].
  assert (Hit : ra (fun y : mstate =>
              if Nat.eqb lo 0 && Nat.eqb (pos y) (pos x) then None
              else rep_loop ra gs greedy k n1 (Nat.pred lo) (pred_hi hi) y)
            (clear_caps gs x)
          = ra (fun y : mstate =>
              if Nat.eqb lo 0 && Nat.eqb (pos y) (pos x) then None
              else rep_loop ra gs greedy k n2 (Nat.pred lo) (pred_hi hi) y)
            (clear_caps gs x)).
  { apply Hra. intros y Hy. apply extends_clear in Hy.
    destruct (Nat.eqb lo 0 && Nat.eqb (pos y) (pos x)) eqn:E; [reflexivity|].
    unfold extends in Hy.
    apply IH; destruct lo as [|lo]; simpl in *;
      try (apply Nat.eqb_neq in E); lia. }
  simpl. destruct hi as [[|h]|]; [reflexivity| |];
    (destruct (negb (Nat.eqb lo 0)); [exact Hit|];
     destruct greedy; apply or_else_ext; (assumption || reflexivity)).
Qed.

(** In particular the counter that [run] gives the loop can be replaced
    by any larger one. *)
Lemma run_counter greedy lo hi a k x n :
  lo + length (rest x) < n ->
  run (Rep greedy lo hi a) k x = rep_loop (run a) (groups a) greedy k n lo hi x.
Proof.
  intros Hn. cbn [run]. apply rep_loop_counter; [apply run_local|lia|exact Hn].
Qed.

(** The patterns iterated with the [g] flag never match the empty text, so
    every search resumes strictly after the start of the previous match. *)
Lemma global_patterns_consume :
  0 < minlen Parser.sectionPattern /\ 0 < minlen Parser.chapterPattern
  /\ 0 < minlen Parser.defPattern /\ 0 < minlen Census.rowRe.
Proof. repeat split; vm_compute; lia. Qed.

End RegexFacts.

(** ** Maps in insertion order and deduplication *)

Module MapFacts.

Import Parser Dedup.

Lemma str_eqb_true (a b : str) : str_eqb a b = true <-> a = b.
Proof. unfold str_eqb. apply bool_decide_eq_true. Qed.

Lemma str_eqb_false (a b : str) : str_eqb a b = false <-> a <> b.
Proof. unfold str_eqb. apply bool_decide_eq_false. Qed.

Section InsertionOrderedMap.
Context {V : Type}.
Implicit Types (m : list (str * V)) (k : str) (v : V).

Lemma map_get_elem m k v : map_get k m = Some v -> (k, v) ∈ m.
Proof.
  induction m as [|[k' v'] m IH]; simpl; [discriminate|].
  destruct (str_eqb k' k) eqn:E.
  - apply str_eqb_true in E. intros [= ->]. subst. left.
  - intros H. right. auto.
Qed.

Lemma map_get_None m k : map_get k m = None -> k ∉ m.*1.
Proof.
  induction m as [|[k' v'] m IH]; simpl.
  - intros _. apply not_elem_of_nil.
  - destruct (str_eqb k' k) eqn:E; [discriminate|].
    apply str_eqb_false in E. intros H. apply not_elem_of_cons. split; [congruence|auto].
Qed.

Lemma elem_map_get m k v : NoDup m.*1 -> (k, v) ∈ m -> map_get k m = Some v.
Proof.
  induction m as [|[k' v'] m IH]; simpl; intros ND H.
  - by apply elem_of_nil in H.
  - apply NoDup_cons in ND. destruct ND as [Hn ND].
    apply elem_of_cons in H. destruct H as [[= -> ->]|H].
    + unfold str_eqb. rewrite bool_decide_eq_true_2; auto.
    + destruct (str_eqb k' k) eqn:E.
      * apply str_eqb_true in E. subst. exfalso. apply Hn.
        apply list_elem_of_fmap. exists (k, v). auto.
      * auto.
Qed.

Lemma map_get_set m k v k' :
  map_get k' (map_set k v m) = if decide (k' = k) then Some v else map_get k' m.
Proof.
  induction m as [|[k0 v0] m IH]; simpl.
  - destruct (decide (k' = k)) as [->|N].
    + unfold str_eqb. by rewrite bool_decide_eq_true_2.
    + unfold str_eqb. rewrite bool_decide_eq_false_2; auto.
  - destruct (str_eqb k0 k) eqn:E; simpl.
    + apply str_eqb_true in E. subst k0.
      destruct (decide (k' = k)) as [->|N].
      * unfold str_eqb. by rewrite bool_decide_eq_true_2.
      * unfold str_eqb. rewrite bool_decide_eq_false_2; auto.
    + apply str_eqb_false in E. rewrite IH.
      destruct (decide (k' = k)) as [->|N].
      * unfold str_eqb. rewrite bool_decide_eq_false_2; auto.
      * reflexivity.
Qed.

Lemma map_set_keys m k v :
  (map_set k v m).*1 = m.*1 ++ match map_get k m with Some _ => [] | None => [k] end.
Proof.
  induction m as [|[k0 v0] m IH]; [reflexivity|].
  cbn [map_set map_get]. destruct (str_eqb k0 k) eqn:E.
  - rewrite app_nil_r. reflexivity.
  - rewrite !fmap_cons, IH. reflexivity.
Qed.

Lemma map_set_NoDup m k v : NoDup m.*1 -> NoDup (map_set k v m).*1.
Proof.
  intros ND. rewrite map_set_keys. destruct (map_get k m) eqn:E.
  - by rewrite app_nil_r.
  - apply NoDup_app. split; [exact ND|]. split.
    + intros x Hx Hk. apply list_elem_of_singleton in Hk. subst.
      by apply map_get_None in E.
    + apply NoDup_singleton.
Qed.

End InsertionOrderedMap.

Section KeepLargest.
Context {A : Type} (key : A -> str) (size : A -> nat).

Local Abbreviation keep_step := (keep_step key size).
Local Abbreviation keep_largest := (keep_largest key size).
Local Abbreviation winner := (winner key size).
Local Abbreviation tracks := (tracks key size).

Lemma winner_later l k v x :
  winner l k v -> (key x = k -> size x <= size v) -> winner (l ++ [x]) k v.
Proof.
  intros (l1 & l2 & -> & Hk & H1 & H2) Hx.
  exists l1, (l2 ++ [x]). split; [by rewrite <- app_assoc|]. split; [exact Hk|].
  split; [exact H1|]. intros q Hq Hkq. apply elem_of_app in Hq. destruct Hq as [Hq|Hq].
  - auto.
  - apply list_elem_of_singleton in Hq. subst. auto.
Qed.

Lemma winner_new l x :
  (forall q, q ∈ l -> key q = key x -> size q < size x) -> winner (l ++ [x]) (key x) x.
Proof.
  intros H. exists l, []. split; [reflexivity|]. split; [reflexivity|]. split; [exact H|].
  intros q Hq. by apply elem_of_nil in Hq.
Qed.

Lemma winner_bound l k v q :
  winner l k v -> q ∈ l -> key q = k -> size q <= size v.
Proof.
  intros (l1 & l2 & -> & Hk & H1 & H2) Hq Hkq.
  apply elem_of_app in Hq. destruct Hq as [Hq|Hq].
  - specialize (H1 q Hq Hkq). lia.
  - apply elem_of_cons in Hq. destruct Hq as [->|Hq]; [lia|auto].
Qed.

Lemma winner_elem l k v : winner l k v -> v ∈ l /\ key v = k.
Proof.
  intros (l1 & l2 & -> & Hk & _). split; [|exact Hk].
  apply elem_of_app. right. left.
Qed.

Lemma keep_step_tracks l m x : tracks l m -> tracks (l ++ [x]) (keep_step m x).
Proof.
  intros [ND Hm]. unfold keep_step.
  assert (Hother : forall k, k <> key x ->
            match map_get k m with
            | Some v => winner (l ++ [x]) k v
            | None => forall y, y ∈ l ++ [x] -> key y <> k
            end).
  { intros k Hk. specialize (Hm k). destruct (map_get k m) as [v|].
    - apply winner_later; [exact Hm|]. intros E. congruence.
    - intros y Hy. apply elem_of_app in Hy. destruct Hy as [Hy|Hy]; [auto|].
      apply list_elem_of_singleton in Hy. subst. congruence. }
  pose proof (Hm (key x)) as Hx.
  destruct (map_get (key x) m) as [e|] eqn:E.
  - destruct (size e <? size x) eqn:Lt.
    + apply Nat.ltb_lt in Lt. split; [by apply map_set_NoDup|].
      intros k. rewrite map_get_set. destruct (decide (k = key x)) as [->|N].
      * apply winner_new. intros q Hq Hkq.
        pose proof (winner_bound _ _ _ _ Hx Hq Hkq). lia.
      * by apply Hother.
    + apply Nat.ltb_ge in Lt. split; [exact ND|].
      intros k. destruct (decide (k = key x)) as [->|N].
      * rewrite E. apply winner_later; [exact Hx|]. intros _. exact Lt.
      * by apply Hother.
  - split; [by apply map_set_NoDup|].
    intros k. rewrite map_get_set. destruct (decide (k = key x)) as [->|N].
    + apply winner_new. intros q Hq Hkq. exfalso. by apply (Hx q).
    + by apply Hother.
Qed.

Lemma foldl_tracks l : tracks l (foldl keep_step [] l).
Proof.
  induction l as [|x l IH] using rev_ind.
  - split; [apply NoDup_nil_2|]. intros k x Hx. by apply elem_of_nil in Hx.
  - rewrite foldl_snoc. by apply keep_step_tracks.
Qed.

Lemma tracks_keys l m : tracks l m -> key <$> map_values m = m.*1.
Proof.
  intros [ND Hm]. unfold map_values.
  assert (H : forall k v, (k, v) ∈ m -> key v = k).
  { intros k v Hkv. apply elem_map_get in Hkv; [|exact ND].
    specialize (Hm k). rewrite Hkv in Hm. exact (proj2 (winner_elem _ _ _ Hm)). }
  clear ND Hm. induction m as [|[k v] m IH]; simpl; [reflexivity|].
  f_equal.
  - apply H. left.
  - apply IH. intros k' v' Hkv. apply H. by right.
Qed.

(** The keys of the result are pairwise distinct. *)
Lemma keep_largest_NoDup l : NoDup (key <$> keep_largest l).
Proof.
  unfold keep_largest. pose proof (foldl_tracks l) as T.
  rewrite (tracks_keys l); [|exact T]. by destruct T.
Qed.

(** What is kept was there. *)
Lemma keep_largest_elem l v : v ∈ keep_largest l -> v ∈ l.
Proof.
  unfold keep_largest, map_values. intros H.
  apply list_elem_of_fmap in H. destruct H as ([k v'] & -> & H). simpl.
  pose proof (foldl_tracks l) as [ND Hm].
  apply elem_map_get in H; [|exact ND]. specialize (Hm k). rewrite H in Hm.
  exact (proj1 (winner_elem _ _ _ Hm)).
Qed.

Lemma filter_none (P : A -> Prop) `{!forall x, Decision (P x)} (l : list A) :
  (forall x, x ∈ l -> ~ P x) -> filter P l = [].
Proof.
  induction l as [|y l IH]; intros Hl; [reflexivity|].
  rewrite filter_cons_False; [|apply Hl; left].
  apply IH. intros x Hx. apply Hl. by right.
Qed.

Lemma filter_unique_key (vs : list A) v :
  NoDup (key <$> vs) -> v ∈ vs -> filter (fun x => key x = key v) vs = [v].
Proof.
  induction vs as [|y vs IH]; simpl; intros ND H.
  - by apply elem_of_nil in H.
  - apply NoDup_cons in ND. destruct ND as [Hn ND].
    apply elem_of_cons in H. destruct H as [->|H].
    + rewrite filter_cons_True; [|reflexivity]. f_equal.
      apply filter_none. intros x Hx Hk. apply Hn.
      rewrite <- Hk. apply list_elem_of_fmap. by exists x.
    + rewrite filter_cons_False; [by apply IH|].
      intros Hk. apply Hn. rewrite Hk. apply list_elem_of_fmap. by exists v.
Qed.

(** Every key of the input is present once in the result, with the first
    of its largest elements. *)
Lemma keep_largest_winner l x :
  x ∈ l ->
  exists v, filter (fun y => key y = key x) (keep_largest l) = [v] /\ winner l (key x) v.
Proof.
  intros Hx. pose proof (foldl_tracks l) as T. pose proof T as [ND Hm].
  specialize (Hm (key x)).
  destruct (map_get (key x) (foldl keep_step [] l)) as [v|] eqn:E.
  - exists v. split; [|exact Hm].
    destruct (winner_elem _ _ _ Hm) as [_ Hk]. rewrite <- Hk.
    apply filter_unique_key; [apply keep_largest_NoDup|].
    unfold keep_largest, map_values. apply list_elem_of_fmap.
    exists (key x, v). split; [reflexivity|]. by apply map_get_elem.
  - exfalso. by apply (Hm x).
Qed.

End KeepLargest.

End MapFacts.

(** ** The parser *)

Module ParserFacts.
Import Regex Parser Dedup RegexFacts MapFacts Examples.

Lemma length_drop_ws s : length (drop_ws s) <= length s.
Proof.
  induction s as [|c s IH]; simpl; [lia|]. destruct (is_ws c); simpl; lia.
Qed.

Lemma length_trim s : length (trim s) <= length s.
Proof.
  unfold trim. rewrite length_rev.
  etransitivity; [apply length_drop_ws|]. rewrite length_rev. apply length_drop_ws.
Qed.

Lemma length_substring a b s : length (substring a b s) <= Nat.max a b.
Proof. unfold substring. rewrite length_take. lia. Qed.

Lemma length_substring_0 b s : length (substring 0 b s) = Nat.min b (length s).
Proof. unfold substring. rewrite length_take, length_drop. lia. Qed.

(** Removing the first match of a pattern does not lengthen the text. *)
Lemma length_replace_first_nil r s : length (replace_first r [] s) <= length s.
Proof.
  unfold replace_first. destruct (exec r s) as [m|] eqn:E; [|lia].
  apply exec_bounds in E. simpl.
  rewrite length_app, length_take, !length_drop. lia.
Qed.

Lemma length_group s m i : length (group_text s m i) <= length s.
Proof.
  unfold group_text, group. destruct (get_cap i (m_caps m)) as [[a b]|]; simpl; [|lia].
  rewrite length_take, length_drop. lia.
Qed.

Lemma minlen_def_head : minlen def_head = 6.
Proof. reflexivity. Qed.

(** A text from which a definition is extracted has at least twelve code
    units: six before the body of the definition and six in it. *)
Lemma definition_needs_text text ref m d :
  m ∈ exec_all defPattern text ->
  definition_of_match text ref m = Some d ->
  12 <= length text.
Proof.
  intros Hm Hd. apply exec_all_found in Hm. destruct Hm as (p & pv & s' & Ht & Hl).
  unfold try_at in Ht.
  destruct (run defPattern Some (MState p pv s' [])) as [z|] eqn:E; [|discriminate].
  injection Ht as <-.
  unfold defPattern in E. cbn [run] in E.
  apply run_sound in E. destruct E as (y1 & E & Ex1 & P1).
  apply run_sound in E. destruct E as (y & E & Ex2 & _).
  injection E as <-. rewrite minlen_def_head in P1.
  unfold definition_of_match in Hd.
  destruct (_ && (5 <? _)) eqn:C; [|discriminate].
  apply andb_prop in C. destruct C as [_ C]. apply Nat.ltb_lt in C.
  pose proof (length_trim (replace_first re_end_punct []
    (group_text text {| m_index := p; m_end := pos y;
       m_caps := set_cap 2 (pos y1, pos y) (caps y) |} 2))) as L1.
  pose proof (length_replace_first_nil re_end_punct
    (group_text text {| m_index := p; m_end := pos y;
       m_caps := set_cap 2 (pos y1, pos y) (caps y) |} 2)) as L2.
  unfold group_text, group in L1, L2, C. simpl in L1, L2, C.
  assert (L3 : length (take (pos y - pos y1) (drop (pos y1) text)) <= pos y - pos y1).
  { rewrite length_take. lia. }
  unfold extends in *. simpl in *. lia.
Qed.

Section WithCaseMapping.

Variable toLowerCase : str -> str.
Variable toUpperCase : str -> str.

Local Abbreviation scan := (scan_sections toLowerCase toUpperCase).
Local Abbreviation cands := (candidates toLowerCase toUpperCase).
Local Abbreviation push := (push_candidate toLowerCase).

Lemma dedup_provisions_keep ps :
  dedup_provisions ps = keep_largest provision_ref (fun p => length (content p)) ps.
Proof. reflexivity. Qed.

Lemma dedup_definitions_keep ds :
  dedup_definitions toLowerCase ds
  = keep_largest (fun d => toLowerCase (term d)) (fun d => length (definition d)) ds.
Proof. reflexivity. Qed.

(** The section loop pushes the candidates one after the other. *)
Lemma section_loop_candidates body chs starts : forall st,
  section_loop toLowerCase body chs starts st
  = foldl (fun st c => push c st) st
      (candidates_from toLowerCase body chs starts (currentChapter st)).
Proof.
  induction starts as [|s later IH]; intros st; [reflexivity|].
  cbn [section_loop candidates_from foldl]. rewrite IH. reflexivity.
Qed.

Lemma pushed_provisions cs : forall st,
  l_provisions (foldl (fun st c => push c st) st cs)
  = l_provisions st ++ (provision_of <$> filter (fun c => 10 < length (k_content c)) cs).
Proof.
  induction cs as [|c cs IH]; intros st; simpl.
  - by rewrite app_nil_r.
  - rewrite IH. simpl. destruct (10 <? length (k_content c)) eqn:E.
    + apply Nat.ltb_lt in E. rewrite filter_cons_True by exact E.
      rewrite fmap_cons, <- app_assoc. reflexivity.
    + apply Nat.ltb_ge in E. rewrite filter_cons_False by lia. reflexivity.
Qed.

Lemma pushed_definitions cs d : forall st,
  d ∈ l_definitions (foldl (fun st c => push c st) st cs) ->
  d ∈ l_definitions st \/
  exists c m, c ∈ cs /\ m ∈ exec_all defPattern (k_content c)
    /\ definition_of_match (k_content c) (k_ref c) m = Some d.
Proof.
  induction cs as [|c cs IH]; intros st H; simpl in H; [by left|].
  apply IH in H. destruct H as [H|(c' & m & Hc & Hm & Hd)].
  - simpl in H. destruct (is_definition_title toLowerCase (k_title c)); [|by left].
    unfold extractDefinitions in H. apply elem_of_app in H. destruct H as [H|H]; [by left|].
    right. apply list_elem_of_omap in H. destruct H as (m & Hm & Hd).
    exists c, m. split; [left|]. split; assumption.
  - right. exists c', m. split; [by right|]. split; assumption.
Qed.

(** The provisions pushed by the section loop are those of the candidates
    with more than ten code units of content, in order. *)
Lemma scan_provisions html :
  l_provisions (scan html)
  = provision_of <$> filter (fun c => 10 < length (k_content c)) (cands html).
Proof.
  unfold scan_sections, candidates. rewrite section_loop_candidates, pushed_provisions.
  reflexivity.
Qed.

Lemma scan_definitions html d :
  d ∈ l_definitions (scan html) ->
  exists c m, c ∈ cands html /\ m ∈ exec_all defPattern (k_content c)
    /\ definition_of_match (k_content c) (k_ref c) m = Some d.
Proof.
  unfold scan_sections, candidates. rewrite section_loop_candidates. intros H.
  apply pushed_definitions in H. destruct H as [H|H]; [|exact H].
  by apply elem_of_nil in H.
Qed.

(** C4.  For every record the parser returns, the reference keys of its
    provisions are pairwise distinct, and so are the terms of its
    definitions once lower-cased. *)
Theorem keys_pairwise_distinct (html : str) (act : ActIndexEntry) :
  NoDup (provision_ref <$> provisions (parsePhilippineHtml toLowerCase toUpperCase html act))
  /\ NoDup ((fun d => toLowerCase (term d))
              <$> definitions (parsePhilippineHtml toLowerCase toUpperCase html act)).
Proof.
  split; simpl.
  - rewrite dedup_provisions_keep. apply keep_largest_NoDup.
  - rewrite dedup_definitions_keep. apply keep_largest_NoDup.
Qed.

(** C5, amended.  When at least one of the section matches that produce
    a given reference key has a body of more than 10 code units, the record
    holds exactly one provision with that key: the one built from the
    earliest of those matches whose stored body, the first 12,000 code units,
    is longest. *)
Theorem longest_stored_body_wins (html : str) (act : ActIndexEntry) (key : str) :
  (exists c, c ∈ filter (fun c => 10 < length (k_content c))
                 (candidates toLowerCase toUpperCase html)
             /\ k_ref c = key) ->
  exists before c after,
    filter (fun c => 10 < length (k_content c)) (candidates toLowerCase toUpperCase html)
      = before ++ c :: after
    /\ k_ref c = key
    /\ filter (fun p => provision_ref p = key)
         (provisions (parsePhilippineHtml toLowerCase toUpperCase html act))
       = [provision_of c]
    /\ (forall q, q ∈ before -> k_ref q = key ->
          length (content (provision_of q)) < length (content (provision_of c)))
    /\ (forall q, q ∈ after -> k_ref q = key ->
          length (content (provision_of q)) <= length (content (provision_of c))).
Proof.
  intros (c0 & Hc0 & <-). cbn [provisions parsePhilippineHtml].
  rewrite dedup_provisions_keep, scan_provisions.
  set (raw := filter _ (candidates toLowerCase toUpperCase html)) in *.
  assert (Hin : provision_of c0 ∈ provision_of <$> raw).
  { apply list_elem_of_fmap. by exists c0. }
  destruct (keep_largest_winner provision_ref (fun p => length (content p)) _ _ Hin)
    as (v & Hf & (l1 & l2 & Hsplit & Hkv & H1 & H2)).
  apply fmap_app_inv in Hsplit. destruct Hsplit as (before & rest & E1 & Hrest & Hraw).
  symmetry in Hrest. apply fmap_cons_inv in Hrest.
  destruct Hrest as (c & after & Ev & E2 & Erest).
  subst l1 l2 v rest.
  exists before, c, after. split; [exact Hraw|]. split; [exact Hkv|]. split; [exact Hf|].
  split.
  - intros q Hq Hkq. apply (H1 (provision_of q)); [|exact Hkq].
    apply list_elem_of_fmap. by exists q.
  - intros q Hq Hkq. apply (H2 (provision_of q)); [|exact Hkq].
    apply list_elem_of_fmap. by exists q.
Qed.

(** C8.  A candidate section whose stripped body has fewer than 10 code
    units yields no provision of the record, and the body of every provision
    of the record has at most 12,000 code units. *)
Theorem short_dropped_long_capped (html : str) (act : ActIndexEntry) :
  (forall c, c ∈ candidates toLowerCase toUpperCase html ->
     length (k_content c) < 10 ->
     provision_of c ∉ provisions (parsePhilippineHtml toLowerCase toUpperCase html act))
  /\ (forall p, p ∈ provisions (parsePhilippineHtml toLowerCase toUpperCase html act) ->
        length (content p) <= 12000).
Proof.
  assert (Hfrom : forall p,
            p ∈ provisions (parsePhilippineHtml toLowerCase toUpperCase html act) ->
            exists c, p = provision_of c /\ 10 < length (k_content c)).
  { intros p Hp. simpl in Hp. rewrite dedup_provisions_keep in Hp.
    apply keep_largest_elem in Hp. rewrite scan_provisions in Hp.
    apply list_elem_of_fmap in Hp. destruct Hp as (c & -> & Hc).
    apply list_elem_of_filter in Hc. exists c. tauto. }
  split.
  - intros c _ Hshort Hp. apply Hfrom in Hp. destruct Hp as (c' & E & Hlong).
    apply (f_equal (fun p => length (content p))) in E.
    unfold provision_of in E. cbn [content] in E.
    rewrite !length_substring_0 in E.
    assert (Hcap : 10 < 12000) by (apply Nat.ltb_lt; reflexivity).
    lia.
  - intros p Hp. apply Hfrom in Hp. destruct Hp as (c & -> & _).
    unfold provision_of. cbn [content]. rewrite length_substring_0. lia.
Qed.

(** C10.  Every definition of a record points back at a provision of
    that record: some provision has the reference key that the definition
    names as its source. *)
Theorem source_provision_resolves (html : str) (act : ActIndexEntry) (d : ParsedDefinition) :
  d ∈ definitions (parsePhilippineHtml toLowerCase toUpperCase html act) ->
  exists p, p ∈ provisions (parsePhilippineHtml toLowerCase toUpperCase html act)
            /\ source_provision d = Some (provision_ref p).
Proof.
  intros Hd. simpl in Hd. rewrite dedup_definitions_keep in Hd.
  apply keep_largest_elem in Hd. apply scan_definitions in Hd.
  destruct Hd as (c & m & Hc & Hm & Hdef).
  pose proof (definition_needs_text _ _ _ _ Hm Hdef) as Hlen.
  assert (Hsrc : source_provision d = Some (k_ref c)).
  { unfold definition_of_match in Hdef. destruct (_ && _ && _); [|discriminate].
    by injection Hdef as <-. }
  assert (Hin : provision_of c ∈ l_provisions (scan_sections toLowerCase toUpperCase html)).
  { rewrite scan_provisions. apply list_elem_of_fmap. exists c. split; [reflexivity|].
    apply list_elem_of_filter. split; [lia|exact Hc]. }
  destruct (keep_largest_winner provision_ref (fun p => length (content p)) _ _ Hin)
    as (v & Hf & Hw).
  exists v. split.
  - simpl. rewrite dedup_provisions_keep.
    assert (Hv : v ∈ filter (fun y => provision_ref y = provision_ref (provision_of c))
                   (keep_largest provision_ref (fun p => length (content p))
                      (l_provisions (scan_sections toLowerCase toUpperCase html)))).
    { rewrite Hf. left. }
    apply list_elem_of_filter in Hv. tauto.
  - rewrite Hsrc. f_equal. symmetry. exact (proj2 (winner_elem _ _ _ _ _ Hw)).
Qed.

(** C6.  The page of the scenario contains the text of the specification;
    parsing it gives a provision with key [sec3] whose heading contains
    [Definition of Terms] and a definition of the term
    [Personal information].  The case mappings may be any that act on ASCII text
    as the ASCII tables do. *)
Theorem scenario_parsed (act : ActIndexEntry) :
  (forall s, is_ascii s -> toLowerCase s = ascii_toLowerCase s) ->
  includes scenario_text scenario_page = true
  /\ (exists p,
        p ∈ provisions (parsePhilippineHtml toLowerCase toUpperCase scenario_page act)
        /\ provision_ref p = lit "sec3"
        /\ includes (lit "Definition of Terms") (p_title p) = true)
  /\ (exists d,
        d ∈ definitions (parsePhilippineHtml toLowerCase toUpperCase scenario_page act)
        /\ term d = lit "Personal information").
Proof.
  intros Hascii. split; [by vm_compute|].
  assert (E1 : toLowerCase (lit "3") = lit "3").
  { rewrite Hascii; [reflexivity|]. repeat constructor. }
  assert (E2 : toLowerCase (lit "Definition of Terms") = lit "definition of terms").
  { rewrite Hascii; [reflexivity|]. repeat constructor. }
  vm_compute in E1, E2.
  assert (S : scan_sections toLowerCase toUpperCase scenario_page
              = scan_sections ascii_toLowerCase ascii_toUpperCase scenario_page).
  { vm_compute. rewrite E1, E2. vm_compute. reflexivity. }
  cbn [provisions definitions parsePhilippineHtml]. rewrite S. clear S. split.
  - vm_compute. eexists. split; [left|]. split; reflexivity.
  - vm_compute. eexists. split; [left|]. reflexivity.
Qed.

End WithCaseMapping.

Lemma scenario_parsed_witness :
  (forall s, is_ascii s -> ascii_toLowerCase s = ascii_toLowerCase s)
  /\ includes scenario_text scenario_page = true
  /\ (exists p,
        p ∈ provisions
              (parsePhilippineHtml ascii_toLowerCase ascii_toUpperCase scenario_page any_act)
        /\ provision_ref p = lit "sec3"
        /\ includes (lit "Definition of Terms") (p_title p) = true)
  /\ (exists d,
        d ∈ definitions
              (parsePhilippineHtml ascii_toLowerCase ascii_toUpperCase scenario_page any_act)
        /\ term d = lit "Personal information").
Proof.
  split; [reflexivity|].
  apply (scenario_parsed ascii_toLowerCase ascii_toUpperCase any_act). reflexivity.
Defined.

(** C5, as stated, fails: two section matches produce the key [sec1], and
    the record holds no provision with that key, because neither body has
    more than 10 code units. *)
Lemma short_twins_leave_nothing :
  k_ref <$> candidates ascii_toLowerCase ascii_toUpperCase short_twins
    = [lit "sec1"; lit "sec1"]
  /\ filter (fun p => provision_ref p = lit "sec1")
       (provisions (parsePhilippineHtml ascii_toLowerCase ascii_toUpperCase
                      short_twins any_act)) = [].
Proof. split; vm_compute; reflexivity. Qed.

Lemma longest_stored_body_wins_witness :
  exists before c after,
    filter (fun c => 10 < length (k_content c))
      (candidates ascii_toLowerCase ascii_toUpperCase long_twins)
      = before ++ c :: after
    /\ k_ref c = lit "sec1"
    /\ filter (fun p => provision_ref p = lit "sec1")
         (provisions (parsePhilippineHtml ascii_toLowerCase ascii_toUpperCase
                        long_twins any_act))
       = [provision_of c]
    /\ (forall q, q ∈ before -> k_ref q = lit "sec1" ->
          length (content (provision_of q)) < length (content (provision_of c)))
    /\ (forall q, q ∈ after -> k_ref q = lit "sec1" ->
          length (content (provision_of q)) <= length (content (provision_of c))).
Proof.
  apply (longest_stored_body_wins ascii_toLowerCase ascii_toUpperCase long_twins any_act).
  exists (first_candidate long_twins). split.
  - vm_compute. left.
  - vm_compute. reflexivity.
Defined.

Lemma short_dropped_long_capped_witness :
  first_candidate short_then_long
    ∈ candidates ascii_toLowerCase ascii_toUpperCase short_then_long
  /\ length (k_content (first_candidate short_then_long)) < 10
  /\ provision_of (first_candidate short_then_long)
      ∉ provisions (parsePhilippineHtml ascii_toLowerCase ascii_toUpperCase
                      short_then_long any_act).
Proof.
  assert (Hin : first_candidate short_then_long
                ∈ candidates ascii_toLowerCase ascii_toUpperCase short_then_long).
  { vm_compute. left. }
  assert (Hlen : length (k_content (first_candidate short_then_long)) < 10).
  { vm_compute. lia. }
  split; [exact Hin|]. split; [exact Hlen|].
  exact (proj1 (short_dropped_long_capped ascii_toLowerCase ascii_toUpperCase
                  short_then_long any_act) _ Hin Hlen).
Defined.

Lemma source_provision_resolves_witness :
  first_definition scenario_page
    ∈ definitions (parsePhilippineHtml ascii_toLowerCase ascii_toUpperCase
                     scenario_page any_act)
  /\ exists p,
       p ∈ provisions (parsePhilippineHtml ascii_toLowerCase ascii_toUpperCase
                         scenario_page any_act)
       /\ source_provision (first_definition scenario_page) = Some (provision_ref p).
Proof.
  assert (Hin : first_definition scenario_page
                ∈ definitions (parsePhilippineHtml ascii_toLowerCase ascii_toUpperCase
                                 scenario_page any_act)).
  { vm_compute. left. }
  split; [exact Hin|].
  exact (source_provision_resolves ascii_toLowerCase ascii_toUpperCase
           scenario_page any_act _ Hin).
Defined.

End ParserFacts.

(** ** The HTTP client *)

Module FetcherFacts.
Import Fetcher Examples.

Lemma rateLimit_requests env w : requests (rateLimit env w) = requests w.
Proof. unfold rateLimit. destruct (_ <? _)%Z; reflexivity. Qed.

(** The gate stamps the time at which it lets the caller through, and
    that time is at least the minimum delay after the previous stamp. *)
Lemma rateLimit_stamp env w :
  lastRequestTime (rateLimit env w) = now (rateLimit env w)
  /\ (lastRequestTime w + MIN_DELAY_MS <= lastRequestTime (rateLimit env w))%Z.
Proof.
  unfold rateLimit, sleep, MIN_DELAY_MS.
  destruct (now w - lastRequestTime w <? 500)%Z eqn:E; simpl; split; try reflexivity.
  - lia.
  - apply Z.ltb_ge in E. lia.
Qed.

Lemma attempt_loop_stamp env target maxRetries n : forall attempt w,
  lastRequestTime (attempt_loop env target maxRetries n attempt w).2 = lastRequestTime w.
Proof.
  induction n as [|n IH]; intros attempt w; [reflexivity|].
  cbn [attempt_loop send].
  destruct (net env (requests w) target) as [e|st [b|e] ct final];
    repeat (match goal with |- context [if ?c then _ else _] => destruct c end);
    try reflexivity; rewrite IH; reflexivity.
Qed.

Lemma attempt_loop_503 env target maxRetries :
  always_503 env target ->
  forall n attempt w,
    Z.of_nat n = (maxRetries + 1 - attempt)%Z -> 0 < n ->
    exists res w',
      attempt_loop env target maxRetries n attempt w = (Returned res, w')
      /\ status res = 503%Z /\ requests w' = requests w + n.
Proof.
  intros H503 n. induction n as [|n IH]; intros attempt w Hn Hpos; [lia|].
  cbn [attempt_loop send].
  destruct (H503 (requests w)) as (b & ct & final & ->).
  change ((503 =? 429)%Z || (500 <=? 503)%Z) with true. cbn [andb].
  destruct (attempt <? maxRetries)%Z eqn:E.
  - apply Z.ltb_lt in E.
    destruct (IH (attempt + 1)%Z
                (sleep env (backoff attempt)
                   {| now := now w + Z.of_N (latency env (requests w));
                      lastRequestTime := lastRequestTime w;
                      requests := S (requests w);
                      timers := timers w;
                      sent := sent w ++ [now w] |}))
      as (res & w' & -> & Hs & Hr); [lia|lia|].
    exists res, w'. split; [reflexivity|]. split; [exact Hs|].
    rewrite Hr. simpl. lia.
  - apply Z.ltb_ge in E. eexists _, _. split; [reflexivity|]. simpl. split; [reflexivity|lia].
Qed.

(** C3.  Against an endpoint that answers every request with status 503,
    a call makes exactly [maxRetries + 1] requests and then returns, without
    throwing, a result whose status is 503. *)
Theorem retry_bound (env : Env) (target : str) (maxRetries : Z) (w : World) :
  (0 <= maxRetries)%Z ->
  always_503 env target ->
  exists res w',
    fetchWithRateLimit env target maxRetries w = (Returned res, w')
    /\ status res = 503%Z
    /\ Z.of_nat (requests w' - requests w) = (maxRetries + 1)%Z.
Proof.
  intros Hm H503. unfold fetchWithRateLimit.
  destruct (attempt_loop_503 env target maxRetries H503
              (Z.to_nat (maxRetries + 1)) 0%Z (rateLimit env w))
    as (res & w' & E & Hs & Hr); [lia|lia|].
  exists res, w'. split; [exact E|]. split; [exact Hs|].
  rewrite Hr, rateLimit_requests. lia.
Qed.

Lemma retry_bound_witness :
  (0 <= DEFAULT_MAX_RETRIES)%Z
  /\ always_503 env_503 (lit "https://lawphil.net/consti/cons1987.html")
  /\ exists res w',
       fetchWithRateLimit env_503 (lit "https://lawphil.net/consti/cons1987.html")
         DEFAULT_MAX_RETRIES (initial_world start_time)
       = (Returned res, w')
       /\ status res = 503%Z
       /\ Z.of_nat (requests w' - requests (initial_world start_time))
          = (DEFAULT_MAX_RETRIES + 1)%Z.
Proof.
  assert (H0 : (0 <= DEFAULT_MAX_RETRIES)%Z) by (unfold DEFAULT_MAX_RETRIES; lia).
  assert (H503 : always_503 env_503 (lit "https://lawphil.net/consti/cons1987.html")).
  { intros n. eexists _, _, _. reflexivity. }
  split; [exact H0|]. split; [exact H503|].
  exact (retry_bound env_503 _ DEFAULT_MAX_RETRIES (initial_world start_time) H0 H503).
Defined.

Lemma attempt_loop_sent env target maxRetries n : forall attempt w,
  exists later, sent (attempt_loop env target maxRetries n attempt w).2 = sent w ++ later.
Proof.
  induction n as [|n IH]; intros attempt w; [exists []; by rewrite app_nil_r|].
  cbn [attempt_loop send].
  destruct (net env (requests w) target) as [e|st [b|e] ct final];
    repeat (match goal with |- context [if ?c then _ else _] => destruct c end);
    try (by exists [now w]);
    match goal with
    | |- context [attempt_loop _ _ _ _ ?a ?w'] =>
        destruct (IH a w') as (later & ->); exists (now w :: later);
        cbn [sent sleep]; by rewrite <- app_assoc
    end.
Qed.

(** The first request of a call is sent at the time the call leaves in
    [lastRequestTime]. *)
Lemma first_request_at_stamp env target maxRetries w :
  (0 <= maxRetries)%Z ->
  sent (fetchWithRateLimit env target maxRetries w).2 !! length (sent w)
  = Some (lastRequestTime (fetchWithRateLimit env target maxRetries w).2).
Proof.
  intros Hm. unfold fetchWithRateLimit. rewrite attempt_loop_stamp.
  destruct (Z.to_nat (maxRetries + 1)) as [|n] eqn:En; [lia|].
  pose proof (rateLimit_stamp env w) as [Hs _].
  assert (Hlog : sent (rateLimit env w) = sent w).
  { unfold rateLimit. destruct (_ <? _)%Z; reflexivity. }
  assert (Hfirst : exists later,
            sent (attempt_loop env target maxRetries (S n) 0 (rateLimit env w)).2
            = sent w ++ now (rateLimit env w) :: later).
  { cbn [attempt_loop send]. rewrite <- Hlog.
    destruct (net env (requests (rateLimit env w)) target) as [e|st [b|e] ct final];
      repeat (match goal with |- context [if ?c then _ else _] => destruct c end);
      try (by exists []);
      match goal with
      | |- context [attempt_loop _ _ _ _ ?a ?w'] =>
          destruct (attempt_loop_sent env target maxRetries n a w') as (later & ->);
          exists later; cbn [sent sleep]; by rewrite <- app_assoc
      end. }
  destruct Hfirst as (later & ->).
  rewrite lookup_app_r by lia. rewrite Nat.sub_diag, Hs. reflexivity.
Qed.





End FetcherFacts.

(** ** The census *)

Module CensusFacts.
Import Regex Census MapFacts Examples.

Lemma digits_of_uint_head d c s : digits_of_uint d = c :: s -> (48 <= c <= 57)%N.
Proof. destruct d; simpl; intros [= <- _]; lia. Qed.




(** Insertion into a sorted array keeps the elements. *)
Lemma sort_insert_perm {A} (cmp : A -> A -> Z) x l : sort_insert cmp x l ≡ₚ x :: l.
Proof.
  induction l as [|y l IH]; simpl; [reflexivity|].
  destruct (cmp y x <=? 0)%Z; [|reflexivity].
  rewrite IH. apply Permutation_swap.
Qed.

Lemma sort_perm {A} (cmp : A -> A -> Z) l : sort cmp l ≡ₚ l.
Proof.
  unfold sort. induction l as [|x l IH] using rev_ind; [reflexivity|].
  rewrite foldl_snoc, sort_insert_perm, IH. by rewrite Permutation_cons_append.
Qed.

Lemma first_of_later rows l r : first_of rows l -> first_of (rows ++ [r]) l.
Proof.
  intros (before & after & -> & H). exists before, (after ++ [r]).
  split; [by rewrite <- app_assoc|exact H].
Qed.

Lemma enter_kept rows st r : kept rows st -> kept (rows ++ [r]) (enter st r).
Proof.
  intros (Hseen & ND & Hfirst & Hall). unfold enter.
  destruct (bool_decide (id r ∈ st.2)) eqn:E.
  - apply bool_decide_eq_true in E. split; [exact Hseen|]. split; [exact ND|]. split.
    + intros l Hl. apply first_of_later. auto.
    + intros q Hq. apply elem_of_app in Hq. destruct Hq as [Hq|Hq]; [auto|].
      apply list_elem_of_singleton in Hq. subst. by apply Hseen.
  - apply bool_decide_eq_false in E. unfold kept. cbn [fst snd].
    assert (Hnew : id r ∉ id <$> st.1) by (intros Hin; apply E; by apply Hseen).
    split; [|split; [|split]].
    + intros x. rewrite fmap_app, elem_of_app, elem_of_union, elem_of_singleton.
      rewrite list_fmap_singleton, list_elem_of_singleton, Hseen. tauto.
    + rewrite fmap_app, list_fmap_singleton. apply NoDup_app. split; [exact ND|].
      split; [|apply NoDup_singleton].
      intros x Hx Hx'. apply list_elem_of_singleton in Hx'. by subst.
    + intros l Hl. apply elem_of_app in Hl. destruct Hl as [Hl|Hl].
      * apply first_of_later. auto.
      * apply list_elem_of_singleton in Hl. subst. exists rows, []. split; [reflexivity|].
        intros q Hq Hid. apply Hnew. rewrite <- Hid. auto.
    + intros q Hq. rewrite fmap_app, elem_of_app.
      apply elem_of_app in Hq. destruct Hq as [Hq|Hq]; [left; auto|right].
      apply list_elem_of_singleton in Hq. subst. rewrite list_fmap_singleton. left.
Qed.

Lemma foldl_enter_kept rows : kept rows (foldl enter ([], ∅) rows).
Proof.
  induction rows as [|r rows IH] using rev_ind.
  - split; [|split; [|split]]; simpl.
    + intros x. rewrite elem_of_empty, elem_of_nil. tauto.
    + apply NoDup_nil_2.
    + intros l Hl. by apply elem_of_nil in Hl.
    + intros r Hr. by apply elem_of_nil in Hr.
  - rewrite foldl_snoc. by apply enter_kept.
Qed.

Section WithCaseMapping.

Variable toLowerCase : str -> str.

Lemma row_loop_entries html ms : forall st,
  foldl (row_step toLowerCase html) st ms
  = foldl enter st (omap (law_of_row toLowerCase html) ms).
Proof.
  induction ms as [|m ms IH]; intros st; [reflexivity|].
  cbn [foldl]. rewrite IH. unfold row_step.
  change (omap (law_of_row toLowerCase html) (m :: ms))
    with (match law_of_row toLowerCase html m with
          | Some y => y :: omap (law_of_row toLowerCase html) ms
          | None => omap (law_of_row toLowerCase html) ms
          end).
  destruct (law_of_row toLowerCase html m) as [law|]; reflexivity.
Qed.

Lemma parseIndexPage_entries html :
  parseIndexPage toLowerCase html
  = (foldl enter ([], ∅) (row_entries toLowerCase html)).1.
Proof. unfold parseIndexPage, row_entries. by rewrite row_loop_entries. Qed.

Lemma row_entry_id html r :
  r ∈ row_entries toLowerCase html -> id r = raToId (raNumber r).
Proof.
  unfold row_entries. intros H. apply list_elem_of_omap in H. destruct H as (m & _ & H).
  unfold law_of_row in H.
  destruct (parseInt _) as [n|]; [|discriminate].
  destruct (parseInt _) as [y|]; [|discriminate].
  by injection H as <-.
Qed.


Lemma special_ids n :
  id constitution_1987 <> raToId n /\ id revised_penal_code <> raToId n.
Proof. split; discriminate. Qed.


End WithCaseMapping.


End CensusFacts.

(** ** The ingestion pipeline *)

Module IngestFacts.
Import Parser Ingest Examples.




Section WithSurroundings.

Variable toLowerCase : str -> str.
Variable toUpperCase : str -> str.
Variable env : Fetcher.Env.









(** C2.  When the fetch of a document raises after the retries or returns
    a status other than 200, the record written for it has no provisions and
    no definitions, and each of its metadata fields is the field of the
    document. *)
Theorem fallback_guarantee (skip : bool) (st : RunState) (act : ActIndexEntry) :
  is_fetched skip (files st) act ->
  fetch_failed (Fetcher.fetchWithRateLimit env (url act)
                  Fetcher.DEFAULT_MAX_RETRIES (world st)).1 ->
  exists record,
    written (process_act toLowerCase toUpperCase env skip st act) = written st ++ [record]
    /\ seedFiles (files (process_act toLowerCase toUpperCase env skip st act)) !! id act
       = Some record
    /\ provisions record = [] /\ definitions record = []
    /\ a_id record = id act /\ a_title record = title act
    /\ a_title_en record = titleEn act /\ a_short_name record = shortName act
    /\ a_status record = status act /\ a_issued_date record = issuedDate act
    /\ a_in_force_date record = inForceDate act /\ a_url record = url act
    /\ a_description record = description act.
Proof.
  intros Hf Hfail. exists (createFallbackSeed act).
  assert (E : process_act toLowerCase toUpperCase env skip st act
              = match Fetcher.fetchWithRateLimit env (url act)
                        Fetcher.DEFAULT_MAX_RETRIES (world st) with
                | (Fetcher.Returned result, w) =>
                    write_fallback act
                      (lit "HTTP " ++ decimal (Fetcher.status result) ++ lit " (fallback)") w st
                | (Fetcher.Thrown _, w) =>
                    write_fallback act (lit "FETCH FAILED (fallback)") w st
                end).
  { unfold process_act. destruct skip.
    - destruct (Hf eq_refl) as [-> ->].
      destruct (Fetcher.fetchWithRateLimit _ _ _ _) as [[result|e] w']; [|reflexivity].
      simpl in Hfail. by rewrite bool_decide_eq_false_2.
    - destruct (Fetcher.fetchWithRateLimit _ _ _ _) as [[result|e] w']; [|reflexivity].
      simpl in Hfail. by rewrite bool_decide_eq_false_2. }
  rewrite E. destruct (Fetcher.fetchWithRateLimit _ _ _ _) as [[result|e] w'];
    (split; [reflexivity|]); (split; [simpl; apply lookup_insert_eq|]);
    repeat split; reflexivity.
Qed.

End WithSurroundings.



Lemma fallback_guarantee_witness :
  is_fetched false no_files any_act
  /\ fetch_failed (Fetcher.fetchWithRateLimit env_503 (url any_act)
                     Fetcher.DEFAULT_MAX_RETRIES (Fetcher.initial_world start_time)).1
  /\ exists record,
       written (process_act ascii_toLowerCase ascii_toUpperCase env_503 false
                  (initial_state no_files (Fetcher.initial_world start_time)) any_act)
       = [record]
       /\ provisions record = [] /\ definitions record = [] /\ a_id record = id any_act.
Proof.
  assert (Hf : is_fetched false no_files any_act) by (intros H; discriminate).
  assert (Hfail : fetch_failed
                    (Fetcher.fetchWithRateLimit env_503 (url any_act)
                       Fetcher.DEFAULT_MAX_RETRIES (Fetcher.initial_world start_time)).1).
  { vm_compute. discriminate. }
  split; [exact Hf|]. split; [exact Hfail|].
  destruct (fallback_guarantee ascii_toLowerCase ascii_toUpperCase env_503 false
              (initial_state no_files (Fetcher.initial_world start_time)) any_act Hf Hfail)
    as (record & Hw & _ & Hp & Hd & Hid & _).
  exists record. split; [exact Hw|]. split; [exact Hp|]. split; [exact Hd|exact Hid].
Defined.

End IngestFacts.

(** ** The matcher, continued *)

Module MatchingFacts.
Import Regex RegexFacts Matching.

Lemma rep_loop_within ra gs greedy k :
  runs_within ra ->
  forall n lo hi x z,
    rep_loop ra gs greedy k n lo hi x = Some z ->
    exists y, k y = Some z /\ rest y `suffix_of` rest x.
Proof.
  intros Hra n. induction n as [|n IH]; intros lo hi x z H.
  - simpl in H. destruct hi as [[|h]|]; try discriminate. by exists x.
  - assert (Hstop : k x = Some z -> exists y, k y = Some z /\ rest y `suffix_of` rest x)
      by (intros Hk; by exists x).
    assert (Hiter : ra (fun y : mstate =>
                if Nat.eqb lo 0 && Nat.eqb (pos y) (pos x) then None
                else rep_loop ra gs greedy k n (Nat.pred lo) (pred_hi hi) y)
              (clear_caps gs x) = Some z ->
            exists y, k y = Some z /\ rest y `suffix_of` rest x).
    { intros Hr. apply Hra in Hr. destruct Hr as (y1 & Hd & Hs).
      destruct (Nat.eqb lo 0 && Nat.eqb (pos y1) (pos x)); [discriminate|].
      apply IH in Hd. destruct Hd as (y & Hk & Hs').
      exists y. split; [exact Hk|]. simpl in Hs. by etransitivity. }
    simpl in H.
    destruct hi as [[|h]|]; [by apply Hstop| |];
      (destruct lo as [|lo]; simpl in H;
       [destruct greedy; apply or_else_Some in H; destruct H as [H|H];
          solve [by apply Hstop | by apply Hiter]
       |by apply Hiter]).
Qed.

Lemma run_within r : runs_within (run r).
Proof.
  induction r as [|p|a IHa b IHb|a IHa b IHb|g lo hi a IHa|i a IHa|ml|ml|];
    intros k x z H; cbn [run] in H.
  - by exists x.
  - destruct (rest x) as [|c tl] eqn:E; [discriminate|].
    destruct (p c); [|discriminate].
    eexists. split; [exact H|]. simpl. by apply suffix_cons_r.
  - apply IHa in H. destruct H as (y1 & H & S1).
    apply IHb in H. destruct H as (y & H & S2).
    exists y. split; [exact H|]. by etransitivity.
  - apply or_else_Some in H. destruct H as [H|H]; [by apply IHa|by apply IHb].
  - by apply (rep_loop_within (run a)) in H.
  - apply IHa in H. destruct H as (y & H & S1). eexists. split; [exact H|]. exact S1.
  - destruct (_ || _); [|discriminate]. by exists x.
  - destruct (rest x) as [|c tl] eqn:E.
    + exists x. by rewrite E.
    + destruct (_ && _); [|discriminate]. exists x. by rewrite E.
  - destruct (xorb _ _); [|discriminate]. by exists x.
Qed.

Lemma Forall_suffix {A} (P : A -> Prop) (l1 l2 : list A) :
  l1 `suffix_of` l2 -> Forall P l2 -> Forall P l1.
Proof. intros [k ->] H. by apply Forall_app in H as [_ H]. Qed.

(** A pattern that needs a code unit of a class fails on a text that has
    none. *)
Lemma needs_fails q r :
  needs q r ->
  forall k x, Forall (fun c => q c = false) (rest x) -> run r k x = None.
Proof.
  induction r as [|p|a IHa b IHb|a IHa b IHb|g lo hi a IHa|i a IHa|ml|ml|];
    intros Hn k x Hx; cbn [run]; cbn [needs] in Hn; try contradiction.
  - destruct (rest x) as [|c tl]; [reflexivity|].
    destruct (p c) eqn:E; [|reflexivity].
    apply Hn in E. apply Forall_cons in Hx as [Hc _]. congruence.
  - destruct Hn as [Hn|Hn]; [by apply IHa|].
    destruct (run a (run b k) x) as [z|] eqn:E; [|reflexivity].
    apply run_within in E. destruct E as (y & E & Hs).
    rewrite (IHb Hn k y) in E; [discriminate|]. by apply (Forall_suffix _ _ _ Hs).
  - destruct Hn as [Ha Hb]. rewrite IHa, IHb by assumption. reflexivity.
  - destruct Hn as (Hlo & Hhi & Hn).
    destruct lo as [|lo]; [lia|].
    destruct hi as [[|h]|]; [congruence| |]; simpl; by apply IHa.
  - by apply IHa.
Qed.

Lemma scan_none r s :
  (forall p pv s', s' `suffix_of` s -> try_at r p pv s' = None) ->
  forall resume p pv, scan r resume p pv s = [].
Proof.
  induction s as [|c s IH]; intros H resume p pv; simpl.
  - rewrite (H p pv []) by reflexivity. by destruct (p <? resume).
  - rewrite (H p pv (c :: s)) by reflexivity.
    assert (E : forall sk, scan r sk (S p) (Some c) s = []).
    { intros sk. apply IH. intros p' pv' s' Hs. apply H. by apply suffix_cons_r. }
    rewrite !E. by destruct (p <? resume).
Qed.

(** A global pattern that needs a code unit of a class finds nothing in a
    text that has none. *)
Lemma exec_all_needs q r s :
  needs q r -> Forall (fun c => q c = false) s -> exec_all r s = [].
Proof.
  intros Hn Hs. apply scan_none. intros p pv s' Hs'. unfold try_at.
  rewrite (needs_fails q r Hn); [reflexivity|]. simpl. by apply (Forall_suffix _ _ _ Hs').
Qed.

Lemma chained_weaken m hi ms : forall lo lo',
  lo' <= lo -> chained m lo hi ms -> chained m lo' hi ms.
Proof. destruct ms as [|x ms]; simpl; [done|]. intros lo lo' Hl (?&?&?&?). repeat split; [lia|lia|lia|done]. Qed.

Lemma scan_chained r s : forall resume p pv,
  chained (minlen r) (Nat.max resume p) (p + length s) (scan r resume p pv s).
Proof.
  induction s as [|c s IH]; intros resume p pv; simpl.
  - destruct (p <? resume) eqn:L; [done|]. apply Nat.ltb_ge in L.
    destruct (try_at r p pv []) as [m|] eqn:E; [|done].
    apply try_at_bounds in E. simpl in *. repeat split; lia.
  - destruct (p <? resume) eqn:L.
    + apply Nat.ltb_lt in L. specialize (IH resume (S p) (Some c)).
      replace (Nat.max resume p) with (Nat.max resume (S p)) by lia.
      replace (p + S (length s)) with (S p + length s) by lia. exact IH.
    + apply Nat.ltb_ge in L.
      destruct (try_at r p pv (c :: s)) as [m|] eqn:E.
      * apply try_at_bounds in E. simpl in E. destruct E as (Ei & E1 & E2).
        cbn [chained]. split; [lia|]. split; [lia|]. split; [lia|].
        specialize (IH (Nat.max (m_end m) (S p)) (S p) (Some c)).
        rewrite Ei.
        replace (Nat.max (Nat.max (m_end m) (S p)) (S p)) with (Nat.max (m_end m) (S p)) in IH by lia.
        replace (p + S (length s)) with (S p + length s) by lia. exact IH.
      * specialize (IH resume (S p) (Some c)).
        replace (p + S (length s)) with (S p + length s) by lia.
        eapply chained_weaken; [|exact IH]. lia.
Qed.

Lemma length_splice repl m : forall ms cur s,
  length repl <= m ->
  chained m cur (cur + length s) ms ->
  length (splice repl ms cur s) <= length s.
Proof.
  induction ms as [|x ms IH]; intros cur s Hr Hc; simpl; [lia|].
  destruct Hc as (H1 & H2 & H3 & Hc).
  rewrite !length_app, length_take.
  assert (IH' : length (splice repl ms (m_end x) (drop (m_end x - cur) s))
                <= length (drop (m_end x - cur) s)).
  { apply IH; [exact Hr|]. rewrite length_drop.
    replace (m_end x + (length s - (m_end x - cur))) with (cur + length s) by lia.
    eapply chained_weaken; [|exact Hc]. lia. }
  rewrite length_drop in IH'. lia.
Qed.

(** Replacing every match by a text no longer than the shortest match
    does not lengthen the text. *)
Lemma length_replace_all r repl s :
  length repl <= minlen r -> length (replace_all r repl s) <= length s.
Proof.
  intros H. unfold replace_all, exec_all. apply (length_splice repl (minlen r)); [exact H|].
  apply (scan_chained r s 0 0 None).
Qed.

End MatchingFacts.

(** ** The parser, continued *)

Module ParserMore.
Import Regex Parser Dedup RegexFacts MapFacts Examples ParserFacts Matching MatchingFacts
  Layout Scenarios.

Lemma drop_ws_clean s : starts_with_none is_ws (drop_ws s).
Proof.
  induction s as [|c s IH]; simpl; [done|]. destruct (is_ws c) eqn:E; [exact IH|exact E].
Qed.

Lemma drop_ws_id s : starts_with_none is_ws s -> drop_ws s = s.
Proof. destruct s as [|c s]; simpl; [done|]. by intros ->. Qed.

Lemma drop_ws_snoc l c : is_ws c = false -> exists l', drop_ws (l ++ [c]) = l' ++ [c].
Proof.
  intros Hc. induction l as [|x l IH]; simpl.
  - rewrite Hc. by exists [].
  - destruct (is_ws x); [exact IH|]. by exists (x :: l).
Qed.


Lemma trim_idem s : trim (trim s) = trim s.
Proof.
  unfold trim at 2 3. pose proof (drop_ws_clean s) as Hc.
  destruct (drop_ws s) as [|c a]; [reflexivity|]. simpl in Hc.
  change (rev (c :: a)) with (rev a ++ [c]).
  destruct (drop_ws_snoc (rev a) c Hc) as (l' & E).
  assert (Hb : drop_ws (l' ++ [c]) = l' ++ [c]).
  { rewrite <- E. apply drop_ws_id, drop_ws_clean. }
  rewrite E, rev_app_distr. cbn [rev app]. unfold trim. cbn [drop_ws]. rewrite Hc.
  cbn [rev]. rewrite rev_involutive, Hb, rev_app_distr. reflexivity.
Qed.


(** ** [stripHtml] *)

Lemma length_stripHtml s : length (Parser.stripHtml s) <= length s.
Proof.
  unfold Parser.stripHtml. cbv zeta. etransitivity; [apply length_trim|].
  repeat (etransitivity; [apply length_replace_all; vm_compute; lia|]).
  reflexivity.
Qed.

Lemma length_census_stripHtml s : length (Census.stripHtml s) <= length s.
Proof.
  unfold Census.stripHtml. cbv zeta. etransitivity; [apply length_trim|].
  repeat (etransitivity; [apply length_replace_all; vm_compute; lia|]).
  reflexivity.
Qed.

(** X1.  Stripping the markup never lengthens a text, and what it returns
    has no white space at either end; this holds for the [stripHtml] of the
    parser and for that of the census. *)
Theorem stripped_text_is_trimmed_and_no_longer (s : str) :
  length (Parser.stripHtml s) <= length s
  /\ trim (Parser.stripHtml s) = Parser.stripHtml s
  /\ length (Census.stripHtml s) <= length s
  /\ trim (Census.stripHtml s) = Census.stripHtml s.
Proof.
  split; [apply length_stripHtml|]. split; [apply trim_idem|].
  split; [apply length_census_stripHtml|apply trim_idem].
Qed.

(** ** Pages without section markers *)

Lemma sectionPattern_needs_digit : needs is_digit sectionPattern.
Proof.
  unfold sectionPattern, section_number, seq, plus, digit. cbn [foldr needs].
  right. right. right. left. split.
  - right. right. left. left. split; [lia|]. split; [discriminate|]. auto.
  - right. right. left. left. split; [lia|]. split; [discriminate|]. auto.
Qed.

Lemma body_of_Forall (P : char -> Prop) html : Forall P html -> Forall P (body_of html).
Proof.
  intros H. unfold body_of. destruct (exec bodyPattern html) as [m|]; [|exact H].
  unfold group_text, group. destruct (get_cap 1 (m_caps m)) as [[a b]|]; simpl; [|constructor].
  by apply Forall_take, Forall_drop.
Qed.

(** X2.  A page without any digit has no section marker: parsing it gives
    the record of the act with no provisions and no definitions, which is the
    fallback record. *)
Theorem page_without_digits_gives_metadata_only
    (toLowerCase toUpperCase : str -> str) (html : str) (act : ActIndexEntry) :
  Forall (fun c => is_digit c = false) html ->
  parsePhilippineHtml toLowerCase toUpperCase html act = Ingest.createFallbackSeed act.
Proof.
  intros H. unfold parsePhilippineHtml, Ingest.createFallbackSeed, scan_sections.
  unfold find_section_starts.
  rewrite (exec_all_needs is_digit sectionPattern (body_of html)
             sectionPattern_needs_digit (body_of_Forall _ _ H)).
  reflexivity.
Qed.

(** ** Section starts and chapters *)

Lemma rising_weaken l : forall lo lo', lo' <= lo -> rising lo l -> rising lo' l.
Proof. destruct l as [|i l]; simpl; [done|]. intros lo lo' H [H1 H2]. split; [lia|done]. Qed.

Lemma chained_rising {A} (f : rmatch -> option A) (ix : A -> nat) m hi :
  (forall x a, f x = Some a -> ix a = m_index x) ->
  forall ms lo, chained m lo hi ms -> rising lo (ix <$> omap f ms).
Proof.
  intros Hf ms. induction ms as [|x ms IH]; intros lo Hc; [done|].
  destruct Hc as (H1 & _ & _ & Hc). apply IH in Hc.
  change (omap f (x :: ms))
    with (match f x with Some a => a :: omap f ms | None => omap f ms end).
  destruct (f x) as [a|] eqn:E.
  - rewrite fmap_cons. cbn [rising]. rewrite (Hf x a E). split; [exact H1|].
    eapply rising_weaken; [|exact Hc]. lia.
  - eapply rising_weaken; [|exact Hc]. lia.
Qed.

Lemma latest_chapter_None chs a b :
  a <= b -> latest_chapter chs b = None -> latest_chapter chs a = None.
Proof.
  unfold latest_chapter. intros Hab H.
  destruct (last (filter (fun c => c_index c <= b) chs)) as [c|] eqn:E; [discriminate|].
  apply last_None in E.
  rewrite (filter_none (fun c => c_index c <= a) chs); [reflexivity|].
  intros x Hx Hxa. assert (Hin : x ∈ filter (fun c => c_index c <= b) chs).
  { apply list_elem_of_filter. split; [lia|exact Hx]. }
  rewrite E in Hin. by apply elem_of_nil in Hin.
Qed.

Lemma update_chapter_latest chs start cur :
  update_chapter chs start cur = default cur (latest_chapter chs start).
Proof.
  unfold update_chapter, latest_chapter.
  induction chs as [|c chs IH] using rev_ind; [reflexivity|].
  rewrite foldl_snoc, filter_app. destruct (c_index c <=? start) eqn:E.
  - apply Nat.leb_le in E. rewrite filter_cons_True by exact E.
    rewrite filter_nil, last_snoc. reflexivity.
  - apply Nat.leb_gt in E. rewrite filter_cons_False by lia.
    rewrite filter_nil, app_nil_r. exact IH.
Qed.

(** ** Leading punctuation *)

Section GreedyClass.
Variable p : char -> bool.








End GreedyClass.






Section WithCaseMapping.

Variable toLowerCase : str -> str.
Variable toUpperCase : str -> str.

Local Abbreviation parse := (parsePhilippineHtml toLowerCase toUpperCase).
Local Abbreviation cands := (candidates toLowerCase toUpperCase).

Lemma section_starts_rising body :
  rising 0 (s_index <$> find_section_starts body).
Proof.
  unfold find_section_starts, exec_all.
  apply (chained_rising _ _ (minlen sectionPattern) (0 + length body)).
  - intros x a. unfold section_start_of_match. destruct (trim _); [discriminate|].
    by intros [= <-].
  - apply (scan_chained sectionPattern body 0 0 None).
Qed.

Lemma section_start_number body st :
  st ∈ find_section_starts body -> sectionNum st <> [] /\ trim (sectionNum st) = sectionNum st.
Proof.
  unfold find_section_starts. intros H. apply list_elem_of_omap in H.
  destruct H as (m & _ & H). unfold section_start_of_match in H.
  destruct (trim _) as [|c t] eqn:E; [discriminate|]. injection H as <-. simpl.
  split; [discriminate|]. rewrite <- E. apply trim_idem.
Qed.

Lemma candidates_from_starts body chs : forall starts cur,
  rising 0 (s_index <$> starts) ->
  (forall st, head starts = Some st -> latest_chapter chs (s_index st) = None -> cur = []) ->
  Forall2 (from_start toLowerCase chs) (candidates_from toLowerCase body chs starts cur) starts.
Proof.
  induction starts as [|st later IH]; intros cur Hr Hcur; [constructor|].
  cbn [candidates_from]. rewrite fmap_cons in Hr. destruct Hr as [_ Hr].
  assert (Hch : update_chapter chs (s_index st) cur
                = default [] (latest_chapter chs (s_index st))).
  { rewrite update_chapter_latest.
    destruct (latest_chapter chs (s_index st)) eqn:E; [reflexivity|].
    simpl. by apply (Hcur st). }
  constructor.
  - split; [reflexivity|]. split; [reflexivity|]. exact Hch.
  - apply IH.
    + eapply rising_weaken; [|exact Hr]. lia.
    + intros st' Hhd Hnone. cbn [candidate k_chapter]. rewrite Hch.
      destruct later as [|st2 later]; [discriminate|]. injection Hhd as ->.
      rewrite fmap_cons in Hr. destruct Hr as [Hle _].
      by rewrite (latest_chapter_None chs _ _ Hle Hnone).
Qed.

Lemma candidate_start html c :
  c ∈ cands html ->
  exists st, st ∈ find_section_starts (body_of html)
    /\ from_start toLowerCase (find_chapters toUpperCase (body_of html)) c st.
Proof.
  unfold candidates. intros Hc.
  apply list_elem_of_lookup_1 in Hc. destruct Hc as (i & Hi).
  pose proof (candidates_from_starts (body_of html)
                (find_chapters toUpperCase (body_of html))
                (find_section_starts (body_of html)) []
                (section_starts_rising _) (fun _ _ _ => eq_refl)) as HF.
  destruct (Forall2_lookup_l _ _ _ _ _ HF Hi) as (st & Hst & Hfrom).
  exists st. split; [by eapply list_elem_of_lookup_2|exact Hfrom].
Qed.

Lemma provision_candidate html act p :
  p ∈ provisions (parse html act) ->
  exists c, c ∈ cands html /\ 10 < length (k_content c) /\ p = provision_of c.
Proof.
  intros Hp. simpl in Hp. rewrite dedup_provisions_keep in Hp.
  apply keep_largest_elem in Hp. rewrite scan_provisions in Hp.
  apply list_elem_of_fmap in Hp. destruct Hp as (c & -> & Hc).
  apply list_elem_of_filter in Hc. exists c. tauto.
Qed.

Lemma length_body_of html : length (body_of html) <= length html.
Proof.
  unfold body_of. destruct (exec bodyPattern html); [apply length_group|lia].
Qed.

Lemma length_substring_le a b s : length (substring a b s) <= length s.
Proof. unfold substring. rewrite length_take, length_drop. lia. Qed.

Lemma candidate_content_length html c :
  c ∈ cands html -> length (k_content c) <= length html.
Proof.
  unfold candidates.
  generalize (find_chapters toUpperCase (body_of html)) as chs.
  generalize (find_section_starts (body_of html)) as starts.
  intros starts chs. generalize (@nil char) as cur.
  induction starts as [|st later IH]; intros cur H; [by apply elem_of_nil in H|].
  cbn [candidates_from] in H. apply elem_of_cons in H. destruct H as [->|H].
  - cbn [candidate k_content]. etransitivity; [apply length_stripHtml|].
    etransitivity; [apply length_substring_le|apply length_body_of].
  - by apply IH in H.
Qed.

(** X3.  Every provision of a parsed record has a body of more than 10
    code units that is no longer than the page, a section number that is not
    empty and has no white space around it, the reference key [sec] followed
    by the lower-cased section number, and a chapter that is absent rather
    than empty. *)
Theorem provisions_well_formed (html : str) (act : ActIndexEntry) (p : ParsedProvision) :
  p ∈ provisions (parse html act) ->
  10 < length (content p) <= length html
  /\ section p <> []
  /\ trim (section p) = section p
  /\ provision_ref p = lit "sec" ++ toLowerCase (section p)
  /\ chapter p <> Some [].
Proof.
  intros Hp. apply provision_candidate in Hp. destruct Hp as (c & Hc & Hlen & ->).
  pose proof (candidate_content_length html c Hc) as Hhtml.
  destruct (candidate_start html c Hc) as (st & Hst & Hnum & Href & _).
  destruct (section_start_number _ _ Hst) as [Hne Htrim].
  unfold provision_of. cbn [content section provision_ref chapter].
  rewrite length_substring_0, Hnum.
  assert (Hcap : 10 < 12000) by (apply Nat.ltb_lt; reflexivity).
  split; [lia|]. split; [exact Hne|]. split; [exact Htrim|]. split; [exact Href|].
  by destruct (k_chapter c).
Qed.

(** X4.  The chapter of a provision is the name of the last chapter
    heading that starts at or before the section marker the provision comes
    from, and is absent when there is none (or its name is empty). *)
Theorem chapter_is_latest_heading (html : str) (act : ActIndexEntry) (p : ParsedProvision) :
  p ∈ provisions (parse html act) ->
  exists st,
    st ∈ find_section_starts (body_of html)
    /\ section p = sectionNum st
    /\ chapter p
       = or_undefined
           (default [] (latest_chapter (find_chapters toUpperCase (body_of html))
                          (s_index st))).
Proof.
  intros Hp. apply provision_candidate in Hp. destruct Hp as (c & Hc & _ & ->).
  destruct (candidate_start html c Hc) as (st & Hst & Hnum & _ & Hch).
  exists st. split; [exact Hst|]. split; [exact Hnum|].
  unfold provision_of. cbn [chapter]. rewrite Hch. reflexivity.
Qed.




(** ** Definitions *)

Lemma pushed_definitions_titled cs d : forall st,
  d ∈ l_definitions (foldl (fun st c => push_candidate toLowerCase c st) st cs) ->
  d ∈ l_definitions st \/
  exists c m, c ∈ cs /\ is_definition_title toLowerCase (k_title c) = true
    /\ m ∈ exec_all defPattern (k_content c)
    /\ definition_of_match (k_content c) (k_ref c) m = Some d.
Proof.
  induction cs as [|c cs IH]; intros st H; simpl in H; [by left|].
  apply IH in H. destruct H as [H|(c' & m & Hc & Ht & Hm & Hd)].
  - simpl in H. destruct (is_definition_title toLowerCase (k_title c)) eqn:Et; [|by left].
    unfold extractDefinitions in H. apply elem_of_app in H. destruct H as [H|H]; [by left|].
    right. apply list_elem_of_omap in H. destruct H as (m & Hm & Hd).
    exists c, m. split; [left|]. repeat split; assumption.
  - right. exists c', m. split; [by right|]. repeat split; assumption.
Qed.

Lemma definition_origin html act d :
  d ∈ definitions (parse html act) ->
  exists c m, c ∈ cands html /\ is_definition_title toLowerCase (k_title c) = true
    /\ m ∈ exec_all defPattern (k_content c)
    /\ definition_of_match (k_content c) (k_ref c) m = Some d.
Proof.
  intros Hd. simpl in Hd. rewrite dedup_definitions_keep in Hd.
  apply keep_largest_elem in Hd. unfold scan_sections in Hd.
  rewrite section_loop_candidates in Hd. apply pushed_definitions_titled in Hd.
  destruct Hd as [Hd|Hd]; [by apply elem_of_nil in Hd|exact Hd].
Qed.

(** X6.  Every definition of a parsed record has a term of 1 to 99 code
    units without white space around it, and a text of 6 to 4,000 code
    units. *)
Theorem definitions_well_formed (html : str) (act : ActIndexEntry) (d : ParsedDefinition) :
  d ∈ definitions (parse html act) ->
  0 < length (term d) < 100
  /\ trim (term d) = term d
  /\ 5 < length (definition d) <= 4000.
Proof.
  intros Hd. apply definition_origin in Hd. destruct Hd as (c & m & _ & _ & _ & Hd).
  unfold definition_of_match in Hd.
  destruct ((0 <? _) && _ && _) eqn:C; [|discriminate].
  apply andb_prop in C. destruct C as [C C3]. apply andb_prop in C. destruct C as [C1 C2].
  apply Nat.ltb_lt in C1, C2, C3. injection Hd as <-. cbn [term definition].
  rewrite length_substring_0.
  assert (Hcap : 5 < 4000) by (apply Nat.ltb_lt; reflexivity).
  split; [lia|]. split; [apply trim_idem|]. lia.
Qed.

(** X7.  Every definition of a parsed record was extracted from a section
    whose title contains [definition], [interpretation] or [terms] once
    lower-cased, whose body has more than 10 code units, and whose reference
    key the definition names as its source. *)
Theorem definitions_come_from_definition_sections
    (html : str) (act : ActIndexEntry) (d : ParsedDefinition) :
  d ∈ definitions (parse html act) ->
  exists c, c ∈ cands html
    /\ is_definition_title toLowerCase (k_title c) = true
    /\ 10 < length (k_content c)
    /\ source_provision d = Some (k_ref c).
Proof.
  intros Hd. apply definition_origin in Hd. destruct Hd as (c & m & Hc & Ht & Hm & Hd).
  exists c. split; [exact Hc|]. split; [exact Ht|].
  pose proof (definition_needs_text _ _ _ _ Hm Hd) as Hlen. split; [lia|].
  unfold definition_of_match in Hd. destruct (_ && _ && _); [|discriminate].
  by injection Hd as <-.
Qed.

(** X8.  For every term pushed by the section loop the record holds
    exactly one definition with that term lower-cased: the earliest of those
    pushed whose text is longest. *)
Theorem longest_definition_wins (html : str) (act : ActIndexEntry) (d0 : ParsedDefinition) :
  d0 ∈ l_definitions (scan_sections toLowerCase toUpperCase html) ->
  exists before d after,
    l_definitions (scan_sections toLowerCase toUpperCase html) = before ++ d :: after
    /\ toLowerCase (term d) = toLowerCase (term d0)
    /\ filter (fun x => toLowerCase (term x) = toLowerCase (term d0))
         (definitions (parse html act)) = [d]
    /\ (forall q, q ∈ before -> toLowerCase (term q) = toLowerCase (term d0) ->
          length (definition q) < length (definition d))
    /\ (forall q, q ∈ after -> toLowerCase (term q) = toLowerCase (term d0) ->
          length (definition q) <= length (definition d)).
Proof.
  intros Hd. cbn [definitions parsePhilippineHtml]. rewrite dedup_definitions_keep.
  destruct (keep_largest_winner (fun d => toLowerCase (term d))
              (fun d => length (definition d)) _ _ Hd)
    as (v & Hf & (l1 & l2 & Hsplit & Hkv & H1 & H2)).
  exists l1, v, l2. repeat split; assumption.
Qed.

End WithCaseMapping.

Lemma page_without_digits_gives_metadata_only_witness :
  parsePhilippineHtml ascii_toLowerCase ascii_toUpperCase plain_page any_act
  = Ingest.createFallbackSeed any_act.
Proof.
  apply (page_without_digits_gives_metadata_only ascii_toLowerCase ascii_toUpperCase
           plain_page any_act).
  apply (bool_decide_unpack _). vm_compute. exact I.
Defined.

Lemma provisions_well_formed_witness :
  10 < length (content (first_provision chaptered_page)) <= length chaptered_page
  /\ section (first_provision chaptered_page) <> []
  /\ trim (section (first_provision chaptered_page)) = section (first_provision chaptered_page)
  /\ provision_ref (first_provision chaptered_page)
     = lit "sec" ++ ascii_toLowerCase (section (first_provision chaptered_page))
  /\ chapter (first_provision chaptered_page) <> Some [].
Proof.
  apply (provisions_well_formed ascii_toLowerCase ascii_toUpperCase chaptered_page any_act).
  vm_compute. left.
Defined.

Lemma chapter_is_latest_heading_witness :
  exists st,
    st ∈ find_section_starts (body_of chaptered_page)
    /\ section (first_provision chaptered_page) = sectionNum st
    /\ chapter (first_provision chaptered_page)
       = or_undefined
           (default [] (latest_chapter
                          (find_chapters ascii_toUpperCase (body_of chaptered_page))
                          (s_index st))).
Proof.
  apply (chapter_is_latest_heading ascii_toLowerCase ascii_toUpperCase chaptered_page any_act).
  vm_compute. left.
Defined.


Lemma definitions_well_formed_witness :
  0 < length (term (first_definition scenario_page)) < 100
  /\ trim (term (first_definition scenario_page)) = term (first_definition scenario_page)
  /\ 5 < length (definition (first_definition scenario_page)) <= 4000.
Proof.
  apply (definitions_well_formed ascii_toLowerCase ascii_toUpperCase scenario_page any_act).
  vm_compute. left.
Defined.

Lemma definitions_come_from_definition_sections_witness :
  exists c, c ∈ candidates ascii_toLowerCase ascii_toUpperCase scenario_page
    /\ is_definition_title ascii_toLowerCase (k_title c) = true
    /\ 10 < length (k_content c)
    /\ source_provision (first_definition scenario_page) = Some (k_ref c).
Proof.
  apply (definitions_come_from_definition_sections ascii_toLowerCase ascii_toUpperCase
           scenario_page any_act).
  vm_compute. left.
Defined.

Lemma longest_definition_wins_witness :
  exists before d after,
    l_definitions (scan_sections ascii_toLowerCase ascii_toUpperCase scenario_page)
      = before ++ d :: after
    /\ ascii_toLowerCase (term d)
       = ascii_toLowerCase (term (first_pushed_definition scenario_page))
    /\ filter (fun x => ascii_toLowerCase (term x)
                        = ascii_toLowerCase (term (first_pushed_definition scenario_page)))
         (definitions (parsePhilippineHtml ascii_toLowerCase ascii_toUpperCase
                         scenario_page any_act)) = [d]
    /\ (forall q, q ∈ before ->
          ascii_toLowerCase (term q)
          = ascii_toLowerCase (term (first_pushed_definition scenario_page)) ->
          length (definition q) < length (definition d))
    /\ (forall q, q ∈ after ->
          ascii_toLowerCase (term q)
          = ascii_toLowerCase (term (first_pushed_definition scenario_page)) ->
          length (definition q) <= length (definition d)).
Proof.
  apply (longest_definition_wins ascii_toLowerCase ascii_toUpperCase scenario_page any_act).
  vm_compute. left.
Defined.

End ParserMore.

(** ** The HTTP client, continued *)

Module FetcherMore.
Import Fetcher Examples FetcherFacts Retries Scenarios.


(** The requests a loop sends: at most one per iteration left, and at
    least one when an iteration is left. *)
Lemma attempt_loop_requests env target maxRetries n : forall attempt w,
  requests w + (if n is 0 then 0 else 1)
    <= requests (attempt_loop env target maxRetries n attempt w).2
    <= requests w + n.
Proof.
  induction n as [|n IH]; intros attempt w; [simpl; lia|].
  cbn [attempt_loop send].
  destruct (net env (requests w) target) as [e|st [b|e] ct final];
    repeat (match goal with |- context [if ?c then _ else _] => destruct c end);
    try (simpl; lia);
    match goal with
    | |- context [attempt_loop _ _ _ _ ?a ?w'] =>
        specialize (IH a w'); cbn [requests sleep] in IH; destruct n; simpl in *; lia
    end.
Qed.

(** X9.  A call with a non-negative number of retries sends at least one
    request and at most one more than the number of retries. *)
Theorem requests_bounded (env : Env) (target : str) (maxRetries : Z) (w : World) :
  (0 <= maxRetries)%Z ->
  (1 <= Z.of_nat (requests (fetchWithRateLimit env target maxRetries w).2 - requests w)
     <= maxRetries + 1)%Z.
Proof.
  intros Hm. unfold fetchWithRateLimit.
  pose proof (attempt_loop_requests env target maxRetries
                (Z.to_nat (maxRetries + 1)) 0%Z (rateLimit env w)) as H.
  rewrite rateLimit_requests in H.
  destruct (Z.to_nat (maxRetries + 1)) as [|n] eqn:E; [lia|]. lia.
Qed.

Lemma attempt_loop_recovers env target maxRetries st b ct final : forall k n attempt w,
  Z.of_nat n = (maxRetries + 1 - attempt)%Z ->
  (attempt + Z.of_nat k <= maxRetries)%Z ->
  (forall j, j < k -> settles (net env (requests w + j) target) = false) ->
  net env (requests w + k) target = Response st (Text b) ct final ->
  retried_status st = false ->
  exists w',
    attempt_loop env target maxRetries n attempt w = (Returned (result_of st b ct final), w')
    /\ requests w' = requests w + S k.
Proof.
  induction k as [|k IH]; intros n attempt w Hn Hk Hbad Hgood Hst.
  - destruct n as [|n]; [lia|]. cbn [attempt_loop send].
    rewrite Nat.add_0_r in Hgood. rewrite Hgood.
    unfold retried_status in Hst. rewrite Hst. cbn [andb].
    eexists. split; [reflexivity|]. simpl. lia.
  - destruct n as [|n]; [lia|]. cbn [attempt_loop send].
    assert (Hlt : (attempt <? maxRetries)%Z = true) by (apply Z.ltb_lt; lia).
    pose proof (Hbad 0 ltac:(lia)) as H0. rewrite Nat.add_0_r in H0.
    assert (Hnext : exists w',
              attempt_loop env target maxRetries n (attempt + 1)
                (sleep env (backoff attempt)
                   {| now := now w + Z.of_N (latency env (requests w));
                      lastRequestTime := lastRequestTime w;
                      requests := S (requests w);
                      timers := timers w;
                      sent := sent w ++ [now w] |})
              = (Returned (result_of st b ct final), w')
              /\ requests w' = S (requests w) + S k).
    { apply IH.
      - lia.
      - lia.
      - intros j Hj. cbn [requests sleep].
        replace (S (requests w) + j) with (requests w + S j) by lia. apply Hbad. lia.
      - cbn [requests sleep].
        replace (S (requests w) + k) with (requests w + S k) by lia. exact Hgood.
      - exact Hst. }
    destruct Hnext as (w' & E & Hr).
    exists w'. split; [|lia].
    destruct (net env (requests w) target) as [e|st0 [b0|e] ct0 final0]; rewrite ?Hlt.
    + exact E.
    + simpl in H0. apply negb_false_iff in H0. unfold retried_status in H0.
      rewrite H0. cbn [andb]. exact E.
    + destruct ((st0 =? 429)%Z || (500 <=? st0)%Z); exact E.
Qed.

(** X10.  When the first [k] attempts each fail or are answered with 429
    or a 5xx status, [k] is within the retries allowed, and the next attempt
    is answered with another status and a readable body, the call returns
    that response after exactly [k + 1] requests. *)
Theorem recovers_after_retries (env : Env) (target : str) (maxRetries : Z) (w : World)
    (k : nat) (st : Z) (b : str) (ct : option str) (final : str) :
  (Z.of_nat k <= maxRetries)%Z ->
  (forall j, j < k -> settles (net env (requests w + j) target) = false) ->
  net env (requests w + k) target = Response st (Text b) ct final ->
  retried_status st = false ->
  exists w',
    fetchWithRateLimit env target maxRetries w = (Returned (result_of st b ct final), w')
    /\ requests w' = requests w + S k.
Proof.
  intros Hk Hbad Hgood Hst. unfold fetchWithRateLimit.
  destruct (attempt_loop_recovers env target maxRetries st b ct final k
              (Z.to_nat (maxRetries + 1)) 0%Z (rateLimit env w)) as (w' & E & Hr);
    rewrite ?rateLimit_requests; try assumption; try lia.
  exists w'. split; [exact E|]. rewrite Hr, rateLimit_requests. reflexivity.
Qed.

Lemma attempt_loop_throws env target maxRetries e : forall n attempt w w',
  Z.of_nat n = (maxRetries + 1 - attempt)%Z -> 0 < n ->
  attempt_loop env target maxRetries n attempt w = (Thrown e, w') ->
  requests w' = requests w + n
  /\ failed_with e (net env (requests w' - 1) target).
Proof.
  induction n as [|n IH]; intros attempt w w' Hn Hpos H; [lia|].
  cbn [attempt_loop send] in H.
  assert (Hretry : (attempt <? maxRetries)%Z = true ->
            attempt_loop env target maxRetries n (attempt + 1)
              (sleep env (backoff attempt)
                 {| now := now w + Z.of_N (latency env (requests w));
                    lastRequestTime := lastRequestTime w;
                    requests := S (requests w);
                    timers := timers w;
                    sent := sent w ++ [now w] |}) = (Thrown e, w') ->
            requests w' = requests w + S n
            /\ failed_with e (net env (requests w' - 1) target)).
  { intros Hlt Hl. apply Z.ltb_lt in Hlt.
    apply IH in Hl; [|lia|lia]. cbn [requests sleep] in Hl. destruct Hl as [Hr Hf].
    split; [lia|exact Hf]. }
  assert (Hlast : (attempt <? maxRetries)%Z = false -> n = 0).
  { intros Hge. apply Z.ltb_ge in Hge. lia. }
  destruct (net env (requests w) target) as [e0|st [b|e0] ct final] eqn:Eo.
  - destruct (attempt <? maxRetries)%Z eqn:Hlt; [by apply Hretry|].
    injection H as <- <-. rewrite (Hlast eq_refl). cbn [requests].
    split; [lia|]. replace (S (requests w) - 1) with (requests w) by lia.
    rewrite Eo. by left.
  - destruct (attempt <? maxRetries)%Z eqn:Hlt.
    + destruct ((st =? 429)%Z || (500 <=? st)%Z); cbn [andb] in H; [by apply Hretry|discriminate].
    + rewrite andb_false_r in H. discriminate.
  - destruct (attempt <? maxRetries)%Z eqn:Hlt.
    + destruct ((st =? 429)%Z || (500 <=? st)%Z); cbn [andb] in H; by apply Hretry.
    + rewrite andb_false_r in H. injection H as <- <-. rewrite (Hlast eq_refl). cbn [requests].
      split; [lia|]. replace (S (requests w) - 1) with (requests w) by lia.
      rewrite Eo. right. eauto.
Qed.

(** X11.  A call with a non-negative number of retries raises only after
    it has used every attempt, and the error it raises is the one its last
    attempt met. *)
Theorem throws_only_last_error (env : Env) (target : str) (maxRetries : Z) (w w' : World)
    (e : str) :
  (0 <= maxRetries)%Z ->
  fetchWithRateLimit env target maxRetries w = (Thrown e, w') ->
  Z.of_nat (requests w' - requests w) = (maxRetries + 1)%Z
  /\ failed_with e (net env (requests w' - 1) target).
Proof.
  intros Hm H. unfold fetchWithRateLimit in H.
  apply attempt_loop_throws in H; [|lia|lia].
  rewrite rateLimit_requests in H. destruct H as [Hr Hf]. split; [lia|exact Hf].
Qed.

(** X12.  With a negative number of retries the call sends no request and
    raises the error that names the target and the number of retries. *)
Theorem negative_retries_send_nothing (env : Env) (target : str) (maxRetries : Z) (w : World) :
  (maxRetries < 0)%Z ->
  fetchWithRateLimit env target maxRetries w
  = (Thrown (lit "Failed to fetch " ++ target ++ lit " after "
               ++ decimal maxRetries ++ lit " retries"),
     rateLimit env w)
  /\ requests (rateLimit env w) = requests w.
Proof.
  intros Hm. unfold fetchWithRateLimit.
  replace (Z.to_nat (maxRetries + 1)) with 0 by lia.
  split; [reflexivity|apply rateLimit_requests].
Qed.




Lemma requests_bounded_witness :
  (1 <= Z.of_nat (requests (fetchWithRateLimit env_flaky (Parser.url any_act) 3
                              first_world).2 - requests first_world)
     <= 3 + 1)%Z.
Proof. apply (requests_bounded env_flaky (Parser.url any_act) 3 first_world). lia. Defined.

Lemma recovers_after_retries_witness :
  exists w',
    fetchWithRateLimit env_flaky (Parser.url any_act) 3 first_world
      = (Returned (result_of 200 scenario_page (Some (lit "text/html"))
                     (Parser.url any_act)), w')
    /\ requests w' = requests first_world + 3.
Proof.
  apply (recovers_after_retries env_flaky (Parser.url any_act) 3 first_world 2 200
           scenario_page (Some (lit "text/html")) (Parser.url any_act)).
  - lia.
  - intros j Hj. destruct j as [|[|j]]; [reflexivity|reflexivity|lia].
  - reflexivity.
  - reflexivity.
Defined.

Lemma throws_only_last_error_witness :
  Z.of_nat (requests (fetchWithRateLimit env_down (Parser.url any_act) 3 first_world).2
            - requests first_world) = (3 + 1)%Z
  /\ failed_with (lit "fetch failed")
       (net env_down
          (requests (fetchWithRateLimit env_down (Parser.url any_act) 3 first_world).2 - 1)
          (Parser.url any_act)).
Proof.
  apply (throws_only_last_error env_down (Parser.url any_act) 3 first_world
           (fetchWithRateLimit env_down (Parser.url any_act) 3 first_world).2
           (lit "fetch failed")).
  - lia.
  - vm_compute. reflexivity.
Defined.

Lemma negative_retries_send_nothing_witness :
  fetchWithRateLimit env_ok (Parser.url any_act) (-1) first_world
  = (Thrown (lit "Failed to fetch " ++ Parser.url any_act ++ lit " after "
               ++ decimal (-1) ++ lit " retries"),
     rateLimit env_ok first_world)
  /\ requests (rateLimit env_ok first_world) = requests first_world.
Proof.
  apply (negative_retries_send_nothing env_ok (Parser.url any_act) (-1) first_world). lia.
Defined.


End FetcherMore.

(** ** The census, continued *)

Module CensusMore.
Import Regex Census MapFacts Examples CensusFacts FetcherFacts Matching MatchingFacts
  CensusReport Scenarios.

Lemma is_prefix_app (p s : str) : is_prefix p (p ++ s) = true.
Proof. induction p as [|c p IH]; simpl; [reflexivity|]. by rewrite N.eqb_refl. Qed.

Section WithCaseMapping.

Variable toLowerCase : str -> str.

Lemma row_entry_shape html r : r ∈ row_entries toLowerCase html -> from_index r.
Proof.
  unfold row_entries. intros H. apply list_elem_of_omap in H. destruct H as (m & _ & H).
  unfold law_of_row in H.
  destruct (parseInt _) as [n|]; [|discriminate].
  destruct (parseInt _) as [y|]; [|discriminate].
  injection H as <-. repeat split.
Qed.

Lemma parsed_from_rows html l :
  l ∈ parseIndexPage toLowerCase html -> l ∈ row_entries toLowerCase html.
Proof.
  rewrite parseIndexPage_entries. intros H.
  destruct (foldl_enter_kept (row_entries toLowerCase html)) as (_ & _ & Hfirst & _).
  destruct (Hfirst l H) as (before & after & -> & _).
  apply elem_of_app. right. left.
Qed.


Lemma parsed_ids_distinct html : NoDup (id <$> parseIndexPage toLowerCase html).
Proof.
  rewrite parseIndexPage_entries.
  by destruct (foldl_enter_kept (row_entries toLowerCase html)) as (_ & ND & _).
Qed.

Lemma special_ids_differ :
  id constitution_1987 <> id revised_penal_code.
Proof. discriminate. Qed.

(** Insertion into a list of Republic Acts. *)
Lemma insert_special_last (c : CensusLaw) (ras : list CensusLaw) :
  is_republic_act c = false ->
  Forall (fun y => is_republic_act y = true) ras ->
  sort_insert compare_laws c ras = ras ++ [c].
Proof.
  intros Hc Hras. induction Hras as [|y ras Hy _ IH]; [reflexivity|].
  simpl. unfold compare_laws at 1. rewrite Hy, Hc. simpl. by rewrite IH.
Qed.

Lemma insert_second_special (c r : CensusLaw) (ras : list CensusLaw) :
  is_republic_act c = false -> is_republic_act r = false ->
  (raNumber r - raNumber c <= 0)%Z ->
  Forall (fun y => is_republic_act y = true) ras ->
  sort_insert compare_laws r (ras ++ [c]) = ras ++ [c; r].
Proof.
  intros Hc Hr Hn Hras. induction Hras as [|y ras Hy _ IH].
  - simpl. unfold compare_laws. rewrite Hc, Hr. simpl.
    destruct (raNumber r - raNumber c <=? 0)%Z eqn:E; [reflexivity|].
    apply Z.leb_gt in E. lia.
  - simpl. unfold compare_laws at 1. rewrite Hy, Hr. simpl. by rewrite IH.
Qed.

Lemma insert_keeps_order (x : CensusLaw) (ras : list CensusLaw) :
  is_republic_act x = true ->
  Forall (fun y => is_republic_act y = true) ras ->
  weakly_descending ras ->
  weakly_descending (sort_insert compare_laws x ras).
Proof.
  intros Hx Hras. induction Hras as [|y ras Hyra Hras IH]; intros Hs.
  - simpl. split; [constructor|exact I].
  - destruct Hs as [Hy Hs].
    simpl. unfold compare_laws at 1. rewrite Hyra, Hx. simpl.
    destruct (raNumber x - raNumber y <=? 0)%Z eqn:E.
    + apply Z.leb_le in E. split; [|by apply IH].
      rewrite sort_insert_perm. constructor; [lia|exact Hy].
    + apply Z.leb_gt in E. split; [|by split].
      constructor; [lia|]. eapply Forall_impl; [exact Hy|]. simpl. intros; lia.
Qed.

Lemma sort_republic_acts (ras : list CensusLaw) :
  Forall (fun y => is_republic_act y = true) ras ->
  weakly_descending (sort compare_laws ras).
Proof.
  unfold sort. induction ras as [|x ras IH] using rev_ind; intros Hras; [exact I|].
  apply Forall_app in Hras. destruct Hras as [Hras Hx].
  apply Forall_cons in Hx. destruct Hx as [Hx _]. rewrite foldl_snoc.
  apply insert_keeps_order; [exact Hx| |by apply IH].
  fold (sort compare_laws ras). by rewrite sort_perm.
Qed.

Lemma sorted_distinct_descending (ras : list CensusLaw) :
  NoDup (raNumber <$> ras) -> weakly_descending ras -> descending ras.
Proof.
  induction ras as [|x ras IH]; intros ND Hs; [exact I|].
  destruct Hs as [Hx Hs].
  rewrite fmap_cons in ND. apply NoDup_cons in ND. destruct ND as [Hn ND].
  split; [|by apply IH].
  apply Forall_forall. intros y Hy.
  rewrite Forall_forall in Hx. pose proof (Hx y Hy) as Hle. simpl in Hle.
  assert (raNumber y <> raNumber x).
  { intros E. apply Hn. rewrite <- E. apply list_elem_of_fmap. by exists y. }
  lia.
Qed.

Lemma parsed_numbers_distinct html : NoDup (raNumber <$> parseIndexPage toLowerCase html).
Proof.
  apply (NoDup_fmap_1 raToId). rewrite <- list_fmap_compose.
  rewrite (list_fmap_ext (raToId ∘ raNumber) id); [apply parsed_ids_distinct|].
  intros i l Hl. simpl. apply list_elem_of_lookup_2 in Hl.
  apply parsed_from_rows in Hl. symmetry. exact (row_entry_id toLowerCase html l Hl).
Qed.

Lemma parsed_all_republic_acts html :
  Forall (fun y => is_republic_act y = true) (parseIndexPage toLowerCase html).
Proof.
  apply Forall_forall. intros l Hl. apply parsed_from_rows, row_entry_shape in Hl.
  destruct Hl as (_ & Hc & _). unfold is_republic_act. by rewrite Hc.
Qed.

(** The enumeration of a page: the sorted Republic Acts, then the two
    special entries. *)
Lemma enumerate_shape html ct final :
  enumerate toLowerCase
    (Fetcher.Returned {| Fetcher.status := 200; Fetcher.body := html;
                         Fetcher.contentType := ct; Fetcher.url := final |})
  = Some (sort compare_laws (parseIndexPage toLowerCase html)
            ++ [constitution_1987; revised_penal_code]).
Proof.
  cbn [enumerate Fetcher.status Fetcher.body]. rewrite bool_decide_eq_true_2 by reflexivity.
  f_equal. unfold sort at 1. rewrite foldl_app. cbn [foldl].
  fold (sort compare_laws (parseIndexPage toLowerCase html)).
  assert (Hras : Forall (fun y => is_republic_act y = true)
                   (sort compare_laws (parseIndexPage toLowerCase html))).
  { rewrite sort_perm. apply parsed_all_republic_acts. }
  rewrite (insert_special_last constitution_1987 _ eq_refl Hras).
  apply insert_second_special; [reflexivity|reflexivity|simpl; lia|exact Hras].
Qed.

(** X15.  When the index is fetched with status 200, the enumeration is
    the entries of the page in strictly descending order of their numbers,
    followed by the Constitution and the Revised Penal Code. *)
Theorem enumeration_is_ordered (html contentType finalUrl : str) :
  exists ras,
    enumerate toLowerCase
      (Fetcher.Returned {| Fetcher.status := 200; Fetcher.body := html;
                           Fetcher.contentType := contentType;
                           Fetcher.url := finalUrl |})
    = Some (ras ++ [constitution_1987; revised_penal_code])
    /\ ras ≡ₚ parseIndexPage toLowerCase html
    /\ descending ras.
Proof.
  exists (sort compare_laws (parseIndexPage toLowerCase html)).
  split; [apply enumerate_shape|]. split; [apply sort_perm|].
  apply sorted_distinct_descending.
  - rewrite sort_perm. apply parsed_numbers_distinct.
  - apply sort_republic_acts, parsed_all_republic_acts.
Qed.

(** X16.  The identifiers of an enumeration are pairwise distinct. *)
Theorem enumeration_ids_distinct (html contentType finalUrl : str) (laws : list CensusLaw) :
  enumerate toLowerCase
    (Fetcher.Returned {| Fetcher.status := 200; Fetcher.body := html;
                         Fetcher.contentType := contentType;
                         Fetcher.url := finalUrl |}) = Some laws ->
  NoDup (id <$> laws).
Proof.
  rewrite enumerate_shape. intros [= <-].
  rewrite fmap_app. apply NoDup_app. split; [|split].
  - rewrite sort_perm. apply parsed_ids_distinct.
  - intros x Hx Hs. apply list_elem_of_fmap in Hx. destruct Hx as (l & -> & Hl).
    rewrite sort_perm in Hl. apply parsed_from_rows in Hl.
    rewrite (row_entry_id toLowerCase html l Hl) in Hs.
    destruct (special_ids (raNumber l)) as [N1 N2].
    apply elem_of_cons in Hs. destruct Hs as [Hs|Hs]; [by apply N1|].
    apply list_elem_of_singleton in Hs. by apply N2.
  - apply (bool_decide_unpack _). vm_compute. exact I.
Qed.

Lemma count_app {A} (f : A -> bool) (l1 l2 : list A) :
  count f (l1 ++ l2) = count f l1 + count f l2.
Proof. unfold count. by rewrite List.filter_app, length_app. Qed.

Lemma count_all {A} (f : A -> bool) (l : list A) :
  Forall (fun x => f x = true) l -> count f l = length l.
Proof.
  unfold count. induction 1 as [|x l Hx _ IH]; simpl; [reflexivity|].
  rewrite Hx. simpl. by rewrite IH.
Qed.

Lemma count_none {A} (f : A -> bool) (l : list A) :
  Forall (fun x => f x = false) l -> count f l = 0.
Proof.
  unfold count. induction 1 as [|x l Hx _ IH]; simpl; [reflexivity|].
  by rewrite Hx.
Qed.

Lemma min_of_lower (ys : list Z) : forall y0 y,
  y ∈ y0 :: ys -> (min_of y0 ys <= y)%Z.
Proof.
  unfold min_of. induction ys as [|y1 ys IH]; intros y0 y Hy; simpl.
  - apply list_elem_of_singleton in Hy. subst. lia.
  - apply elem_of_cons in Hy. destruct Hy as [->|Hy].
    + pose proof (IH (Z.min y0 y1) (Z.min y0 y1) ltac:(left)). lia.
    + apply elem_of_cons in Hy. destruct Hy as [->|Hy].
      * pose proof (IH (Z.min y0 y1) (Z.min y0 y1) ltac:(left)). lia.
      * apply IH. by right.
Qed.

Lemma max_of_upper (ys : list Z) : forall y0 y,
  y ∈ y0 :: ys -> (y <= max_of y0 ys)%Z.
Proof.
  unfold max_of. induction ys as [|y1 ys IH]; intros y0 y Hy; simpl.
  - apply list_elem_of_singleton in Hy. subst. lia.
  - apply elem_of_cons in Hy. destruct Hy as [->|Hy].
    + pose proof (IH (Z.max y0 y1) (Z.max y0 y1) ltac:(left)). lia.
    + apply elem_of_cons in Hy. destruct Hy as [->|Hy].
      * pose proof (IH (Z.max y0 y1) (Z.max y0 y1) ltac:(left)). lia.
      * apply IH. by right.
Qed.

(** The years of the Republic Acts lie between [minYear] and [maxYear]. *)
Lemma year_bounds (laws : list CensusLaw) (l : CensusLaw) :
  l ∈ laws -> is_republic_act l = true ->
  (minYear laws <= year l <= maxYear laws)%Z.
Proof.
  intros Hl Hra.
  assert (Hy : year l ∈ ra_years laws).
  { unfold ra_years. apply list_elem_of_fmap. exists l. split; [reflexivity|].
    apply list_elem_of_In, List.filter_In. split; [by apply list_elem_of_In|exact Hra]. }
  unfold minYear, maxYear. destruct (ra_years laws) as [|y0 ys].
  - by apply elem_of_nil in Hy.
  - split; [by apply min_of_lower|by apply max_of_upper].
Qed.

(** X17.  The statistics written with an enumeration: the total is the
    number of Republic Acts plus the two special entries, every entry counts
    as ingestable and none as inaccessible or metadata only, and the year of
    every Republic Act lies within the year range. *)
Theorem census_stats_add_up (html contentType finalUrl : str) :
  exists laws,
    enumerate toLowerCase
      (Fetcher.Returned {| Fetcher.status := 200; Fetcher.body := html;
                           Fetcher.contentType := contentType;
                           Fetcher.url := finalUrl |}) = Some laws
    /\ total (census_stats laws) = length (parseIndexPage toLowerCase html) + 2
    /\ republic_acts (census_stats laws) = length (parseIndexPage toLowerCase html)
    /\ special_entries (census_stats laws) = 2
    /\ class_ingestable (census_stats laws) = total (census_stats laws)
    /\ class_inaccessible (census_stats laws) = 0
    /\ class_metadata_only (census_stats laws) = 0
    /\ (forall l, l ∈ laws -> is_republic_act l = true ->
          (minYear laws <= year l <= maxYear laws)%Z).
Proof.
  eexists. split; [apply enumerate_shape|].
  set (ras := sort compare_laws (parseIndexPage toLowerCase html)).
  assert (Hlen : length ras = length (parseIndexPage toLowerCase html)).
  { unfold ras. by rewrite sort_perm. }
  assert (Hshape : Forall from_index ras).
  { apply Forall_forall. intros l Hl. unfold ras in Hl. rewrite sort_perm in Hl.
    by apply row_entry_shape with html, parsed_from_rows. }
  assert (Hra : Forall (fun l => is_republic_act l = true) ras).
  { eapply Forall_impl; [exact Hshape|]. intros l (_ & Hc & _).
    unfold is_republic_act. by rewrite Hc. }
  assert (Hing : Forall (fun l => has_class ingestable l = true) ras).
  { eapply Forall_impl; [exact Hshape|]. intros l (_ & _ & Hc & _).
    unfold has_class. by rewrite Hc. }
  cbn [census_stats total republic_acts special_entries class_ingestable
       class_inaccessible class_metadata_only].
  rewrite !count_app, length_app, Hlen.
  rewrite (count_all _ _ Hra), (count_all _ _ Hing), Hlen.
  rewrite (count_none (fun l => negb (is_republic_act l)) ras),
          (count_none (has_class inaccessible) ras),
          (count_none (has_class metadata_only) ras).
  - change (count is_republic_act [constitution_1987; revised_penal_code]) with 0.
    change (count (has_class ingestable) [constitution_1987; revised_penal_code]) with 2.
    change (length [constitution_1987; revised_penal_code]) with 2.
    split; [reflexivity|]. split; [lia|]. split; [reflexivity|].
    split; [reflexivity|]. split; [reflexivity|]. split; [reflexivity|].
    intros l Hl Hr. by apply year_bounds.
  - eapply Forall_impl; [exact Hing|]. intros l. unfold has_class.
    by destruct (classification l).
  - eapply Forall_impl; [exact Hing|]. intros l. unfold has_class.
    by destruct (classification l).
  - eapply Forall_impl; [exact Hra|]. intros l ->. reflexivity.
Qed.

(** X18.  When the index is answered with status 503 at every attempt,
    the census ends without an enumeration. *)
Theorem index_unreachable_is_fatal (env : Fetcher.Env) (w : Fetcher.World) :
  Fetcher.always_503 env BASE_URL ->
  main toLowerCase env w = None.
Proof.
  intros H503. unfold main, Fetcher.fetchWithRateLimit.
  destruct (attempt_loop_503 env BASE_URL Fetcher.DEFAULT_MAX_RETRIES H503
              (Z.to_nat (Fetcher.DEFAULT_MAX_RETRIES + 1)) 0%Z (Fetcher.rateLimit env w))
    as (res & w' & E & Hs & _); [reflexivity|unfold Fetcher.DEFAULT_MAX_RETRIES; lia|].
  rewrite E. cbn [fst enumerate]. rewrite bool_decide_eq_false_2; [reflexivity|].
  rewrite Hs. discriminate.
Qed.

End WithCaseMapping.
Lemma search_none r s :
  (forall p pv s', s' `suffix_of` s -> try_at r p pv s' = None) ->
  forall p pv, search r p pv s = None.
Proof.
  induction s as [|c s IH]; intros H p pv; cbn [search].
  - by rewrite (H p pv []).
  - rewrite (H p pv (c :: s)) by reflexivity. apply IH.
    intros p' pv' s' Hs. apply H. by apply suffix_cons_r.
Qed.

Lemma datePattern_needs_digit : needs is_digit datePattern.
Proof.
  unfold datePattern, seq, times, digit. cbn [foldr needs].
  right. right. right. left. split; [lia|]. split; [discriminate|]. auto.
Qed.

Lemma trim_Forall (P : char -> Prop) s : Forall P s -> Forall P (trim s).
Proof.
  assert (Hd : forall l, Forall P l -> Forall P (drop_ws l)).
  { induction l as [|c l IH]; intros H; simpl; [done|]. destruct (is_ws c); [|done].
    apply IH. by apply Forall_cons in H as [_ H]. }
  intros H. unfold trim. apply List.Forall_rev, Hd, List.Forall_rev, Hd, H.
Qed.

(** X19.  A date text without any digit is parsed to the empty text. *)
Theorem date_without_digits_is_empty (toLowerCase : str -> str) (dateStr : str) :
  Forall (fun c => is_digit c = false) dateStr -> parseDate toLowerCase dateStr = [].
Proof.
  intros H. unfold parseDate. cbv zeta.
  assert (E : exec datePattern (trim dateStr) = None).
  { unfold exec. apply search_none. intros p pv s' Hs. unfold try_at.
    rewrite (needs_fails is_digit datePattern datePattern_needs_digit); [reflexivity|].
    simpl. apply (Forall_suffix _ _ _ Hs). by apply trim_Forall. }
  by rewrite E.
Qed.


Lemma enumeration_ids_distinct_witness :
  NoDup (id <$> default [] (enumerate ascii_toLowerCase (Fetcher.Returned index_response))).
Proof.
  apply (enumeration_ids_distinct ascii_toLowerCase index_page (lit "text/html") BASE_URL).
  vm_compute. reflexivity.
Defined.

Lemma census_stats_add_up_witness :
  exists laws,
    enumerate ascii_toLowerCase (Fetcher.Returned index_response) = Some laws
    /\ total (census_stats laws) = length (parseIndexPage ascii_toLowerCase index_page) + 2
    /\ republic_acts (census_stats laws) = length (parseIndexPage ascii_toLowerCase index_page)
    /\ special_entries (census_stats laws) = 2
    /\ class_ingestable (census_stats laws) = total (census_stats laws)
    /\ class_inaccessible (census_stats laws) = 0
    /\ class_metadata_only (census_stats laws) = 0
    /\ (forall l, l ∈ laws -> is_republic_act l = true ->
          (minYear laws <= year l <= maxYear laws)%Z).
Proof.
  exact (census_stats_add_up ascii_toLowerCase index_page (lit "text/html") BASE_URL).
Defined.

Lemma index_unreachable_is_fatal_witness : main ascii_toLowerCase env_503 first_world = None.
Proof.
  apply (index_unreachable_is_fatal ascii_toLowerCase env_503 first_world).
  intros n. eexists _, _, _. reflexivity.
Defined.

Lemma date_without_digits_is_empty_witness : parseDate ascii_toLowerCase undated = [].
Proof.
  apply (date_without_digits_is_empty ascii_toLowerCase undated).
  apply (bool_decide_unpack _). vm_compute. exact I.
Defined.

End CensusMore.

(** ** The ingestion, continued *)

Module IngestMore.
Import Parser Ingest Examples FetcherFacts FetcherMore IngestFacts Runs Scenarios.

Lemma slice0_prefix {A} n (l : list A) : slice0 n l `prefix_of` l.
Proof. unfold slice0. destruct (n <? 0)%Z; apply prefix_take. Qed.

(** X20.  The work list of the ingestion is a prefix of the list of key
    acts; with a positive limit it has that many acts, or all of them when
    there are fewer. *)
Theorem work_list_is_prefix (lim : option Z) :
  selected_acts lim `prefix_of` KEY_PHILIPPINE_ACTS
  /\ (forall n, lim = Some n -> (0 < n)%Z ->
        length (selected_acts lim) = Nat.min (Z.to_nat n) (length KEY_PHILIPPINE_ACTS)).
Proof.
  split.
  - unfold selected_acts. destruct lim as [n|]; [|reflexivity].
    destruct (n =? 0)%Z; [reflexivity|apply slice0_prefix].
  - intros n -> Hn. unfold selected_acts, slice0.
    destruct (n =? 0)%Z eqn:E0; [apply Z.eqb_eq in E0; lia|].
    destruct (n <? 0)%Z eqn:E1; [apply Z.ltb_lt in E1; lia|].
    apply length_take.
Qed.

(** What the loop over the arguments keeps of its starting values. *)
Lemma parseArgs_from_flags : forall args acc,
  (skipFetch (parseArgs_from args acc) = true ->
     skipFetch acc = true \/ flag_skip_fetch ∈ args)
  /\ (limit (parseArgs_from args acc) <> limit acc -> flag_limit ∈ args).
Proof.
  assert (H : forall args,
            (forall acc,
               (skipFetch (parseArgs_from args acc) = true ->
                  skipFetch acc = true \/ flag_skip_fetch ∈ args)
               /\ (limit (parseArgs_from args acc) <> limit acc -> flag_limit ∈ args))
            /\ (forall a acc,
               (skipFetch (parseArgs_from (a :: args) acc) = true ->
                  skipFetch acc = true \/ flag_skip_fetch ∈ a :: args)
               /\ (limit (parseArgs_from (a :: args) acc) <> limit acc ->
                     flag_limit ∈ a :: args))).
  { induction args as [|v args [IH0 IH1]].
    - split.
      + intros acc. cbn [parseArgs_from]. split; [auto|intros H; by destruct H].
      + intros a acc. cbn [parseArgs_from].
        destruct (str_eqb a (lit "--limit")) eqn:El;
          [split; [auto|intros H; by destruct H]|].
        destruct (str_eqb a (lit "--skip-fetch")) eqn:Es; cbn [parseArgs_from limit skipFetch].
        * apply bool_decide_eq_true in Es. subst.
          split; [intros _; right; left|intros H; by destruct H].
        * split; [auto|intros H; by destruct H].
    - split; [exact (IH1 v)|].
      intros a acc. cbn [parseArgs_from].
      destruct (str_eqb a (lit "--limit")) eqn:El.
      + apply bool_decide_eq_true in El. subst a.
        assert (Hlim : flag_limit ∈ lit "--limit" :: v :: args) by left.
        destruct v as [|c v].
        * destruct (IH1 [] acc) as [Hs _]. split; [|intros _; exact Hlim].
          intros H. destruct (Hs H) as [?|Hin]; [by left|right; by right].
        * destruct (IH0 {| limit := parseInt (c :: v); skipFetch := skipFetch acc |})
            as [Hs _]. split; [|intros _; exact Hlim].
          intros H. destruct (Hs H) as [?|Hin]; [by left|right; right; by right].
      + destruct (str_eqb a (lit "--skip-fetch")) eqn:Es.
        * apply bool_decide_eq_true in Es. subst a. split; [intros _; right; left|].
          destruct (IH1 v {| limit := limit acc; skipFetch := true |}) as [_ Hl].
          intros H. right. by apply Hl.
        * destruct (IH1 v acc) as [Hs Hl]. split.
          -- intros H. destruct (Hs H) as [?|Hin]; [by left|right; by right].
          -- intros H. right. by apply Hl. }
  intros args. exact (proj1 (H args)).
Qed.

(** X21.  The run is in skip-fetch mode only when [--skip-fetch] is among
    the arguments, and has a limit only when [--limit] is. *)
Theorem flags_come_from_arguments (argv : list str) :
  (skipFetch (parseArgs argv) = true -> flag_skip_fetch ∈ argv)
  /\ (is_Some (limit (parseArgs argv)) -> flag_limit ∈ argv).
Proof.
  destruct (parseArgs_from_flags argv {| limit := None; skipFetch := false |}) as [Hs Hl].
  split.
  - intros H. destruct (Hs H) as [?|?]; [discriminate|assumption].
  - intros [n Hn]. apply Hl. unfold parseArgs in Hn. rewrite Hn. discriminate.
Qed.

Section WithSurroundings.

Variable toLowerCase : str -> str.
Variable toUpperCase : str -> str.
Variable env : Fetcher.Env.

Local Abbreviation step := (process_act toLowerCase toUpperCase env).
Local Abbreviation run := (fetchAndParseActs toLowerCase toUpperCase env).

(** The three ways an iteration ends. *)
Lemma process_act_cases skip st act :
  (exists existing,
     skip = true /\ seedFiles (files st) !! id act = Some existing
     /\ step skip st act = reuse_seed act existing st)
  \/ (exists html fs' w',
        step skip st act = parse_and_write toLowerCase toUpperCase act html fs' w' st
        /\ seedFiles fs' = seedFiles (files st))
  \/ (exists txt w', step skip st act = write_fallback act txt w' st).
Proof.
  unfold process_act. destruct skip.
  - destruct (seedFiles (files st) !! id act) as [existing|]; [left; eauto|].
    destruct (sourceFiles (files st) !! id act) as [html|];
      [right; left; by eexists _, _, _|].
    destruct (Fetcher.fetchWithRateLimit _ _ _ _) as [[result|e] w'];
      [destruct (bool_decide _)|]; [right; left; by eexists _, _, _|right; right; eauto..].
  - destruct (Fetcher.fetchWithRateLimit _ _ _ _) as [[result|e] w'];
      [destruct (bool_decide _)|]; [right; left; by eexists _, _, _|right; right; eauto..].
Qed.

Lemma step_report skip st act :
  processed (step skip st act) = S (processed st)
  /\ skipped (step skip st act) + failed (step skip st act) <= S (skipped st + failed st)
  /\ skipped st <= skipped (step skip st act)
  /\ failed st <= failed (step skip st act)
  /\ exists row,
       results (step skip st act) = results st ++ [row]
       /\ r_act row = shortName act
       /\ totalProvisions (step skip st act) = totalProvisions st + r_provisions row
       /\ totalDefinitions (step skip st act) = totalDefinitions st + r_definitions row.
Proof.
  destruct (process_act_cases skip st act)
    as [(existing & _ & _ & ->)|[(html & fs' & w' & -> & _)|(txt & w' & ->)]];
    simpl; (split; [reflexivity|]); (split; [lia|]); (split; [lia|]); (split; [lia|]);
    eexists; (split; [reflexivity|]); simpl; repeat split; lia.
Qed.

Lemma run_report skip acts : forall st,
  processed (foldl (step skip) st acts) = processed st + length acts
  /\ skipped (foldl (step skip) st acts) + failed (foldl (step skip) st acts)
     <= skipped st + failed st + length acts
  /\ exists rows,
       results (foldl (step skip) st acts) = results st ++ rows
       /\ r_act <$> rows = shortName <$> acts
       /\ totalProvisions (foldl (step skip) st acts)
          = totalProvisions st + sum_list (r_provisions <$> rows)
       /\ totalDefinitions (foldl (step skip) st acts)
          = totalDefinitions st + sum_list (r_definitions <$> rows).
Proof.
  induction acts as [|a acts IH]; intros st.
  - simpl. split; [lia|]. split; [lia|]. exists []. rewrite app_nil_r. simpl.
    repeat split; lia.
  - cbn [foldl]. destruct (IH (step skip st a)) as (Hp & Hsf & rows & Hr & Hn & Htp & Htd).
    destruct (step_report skip st a) as (Hp1 & Hsf1 & _ & _ & row & Hr1 & Hn1 & Htp1 & Htd1).
    split; [rewrite Hp, Hp1; simpl; lia|]. split; [simpl; lia|].
    exists (row :: rows). rewrite Hr, Hr1, <- app_assoc. split; [reflexivity|].
    rewrite !fmap_cons, Hn, Hn1. split; [reflexivity|]. simpl. lia.
Qed.

(** X22.  The report of a run has one row for each act of the work list,
    in order and under its short name; the totals of provisions and of
    definitions are the sums over the rows; and the skipped and the failed
    acts together are no more than the processed ones. *)
Theorem report_adds_up (acts : list ActIndexEntry) (skip : bool) (fs : FileSystem)
    (w : Fetcher.World) :
  processed (run acts skip fs w) = length acts
  /\ r_act <$> results (run acts skip fs w) = shortName <$> acts
  /\ totalProvisions (run acts skip fs w)
     = sum_list (r_provisions <$> results (run acts skip fs w))
  /\ totalDefinitions (run acts skip fs w)
     = sum_list (r_definitions <$> results (run acts skip fs w))
  /\ skipped (run acts skip fs w) + failed (run acts skip fs w)
     <= processed (run acts skip fs w).
Proof.
  unfold fetchAndParseActs.
  destruct (run_report skip acts (initial_state fs w))
    as (Hp & Hsf & rows & Hr & Hn & Htp & Htd).
  simpl in *. rewrite Hr, Hp, Htp, Htd. repeat split; try assumption; lia.
Qed.

(** Seeds are written or left, never removed. *)
Lemma step_seeds skip st act x :
  (x = id act \/ is_Some (seedFiles (files st) !! x)) ->
  is_Some (seedFiles (files (step skip st act)) !! x).
Proof.
  intros Hx.
  destruct (process_act_cases skip st act)
    as [(existing & _ & Hs & ->)|[(html & fs' & w' & -> & Hfs)|(txt & w' & ->)]]; simpl.
  - destruct Hx as [->|Hx]; [by rewrite Hs|exact Hx].
  - rewrite Hfs. destruct (decide (x = id act)) as [->|Hne].
    + rewrite lookup_insert_eq. eauto.
    + rewrite lookup_insert_ne by congruence. by destruct Hx.
  - destruct (decide (x = id act)) as [->|Hne].
    + rewrite lookup_insert_eq. eauto.
    + rewrite lookup_insert_ne by congruence. by destruct Hx.
Qed.

Lemma run_seeds skip acts x : forall st,
  (x ∈ id <$> acts \/ is_Some (seedFiles (files st) !! x)) ->
  is_Some (seedFiles (files (foldl (step skip) st acts)) !! x).
Proof.
  induction acts as [|a acts IH]; intros st Hx.
  - destruct Hx as [Hx|Hx]; [by apply elem_of_nil in Hx|exact Hx].
  - cbn [foldl]. apply IH. rewrite fmap_cons in Hx.
    destruct Hx as [Hx|Hx].
    + apply elem_of_cons in Hx. destruct Hx as [->|Hx]; [|by left].
      right. apply step_seeds. by left.
    + right. apply step_seeds. by right.
Qed.

(** X23.  After a run every act of the work list has a seed file, and
    every seed file that was there before is still there. *)
Theorem every_act_gets_a_seed (acts : list ActIndexEntry) (skip : bool) (fs : FileSystem)
    (w : Fetcher.World) (x : str) :
  x ∈ id <$> acts \/ is_Some (seedFiles fs !! x) ->
  is_Some (seedFiles (files (run acts skip fs w)) !! x).
Proof. intros Hx. unfold fetchAndParseActs. by apply run_seeds. Qed.

(** A skip-fetch run over acts that all have a seed only counts them. *)
Lemma run_all_cached acts : forall st,
  all_seeded acts (files st) ->
  files (foldl (step true) st acts) = files st
  /\ world (foldl (step true) st acts) = world st
  /\ written (foldl (step true) st acts) = written st
  /\ skipped (foldl (step true) st acts) = skipped st + length acts
  /\ failed (foldl (step true) st acts) = failed st.
Proof.
  induction acts as [|a acts IH]; intros st Hall.
  - simpl. repeat split; lia.
  - cbn [foldl].
    destruct (Hall a ltac:(left)) as [existing He].
    assert (E : step true st a = reuse_seed a existing st).
    { unfold process_act. by rewrite He. }
    rewrite E. destruct (IH (reuse_seed a existing st)) as (Hf & Hw & Hwr & Hs & Hfl).
    { intros b Hb. simpl. apply Hall. by right. }
    rewrite Hf, Hw, Hwr, Hs, Hfl. simpl. repeat split; lia.
Qed.

(** X24.  A skip-fetch run that follows any run over the same acts writes
    no file, sends no request, and counts every act as skipped. *)
Theorem second_run_resumes (acts : list ActIndexEntry) (skip : bool) (fs : FileSystem)
    (w : Fetcher.World) :
  written (run acts true (files (run acts skip fs w)) (world (run acts skip fs w))) = []
  /\ files (run acts true (files (run acts skip fs w)) (world (run acts skip fs w)))
     = files (run acts skip fs w)
  /\ world (run acts true (files (run acts skip fs w)) (world (run acts skip fs w)))
     = world (run acts skip fs w)
  /\ skipped (run acts true (files (run acts skip fs w)) (world (run acts skip fs w)))
     = length acts
  /\ failed (run acts true (files (run acts skip fs w)) (world (run acts skip fs w))) = 0.
Proof.
  set (st1 := run acts skip fs w).
  assert (Hall : all_seeded acts (files st1)).
  { intros a Ha. unfold st1, fetchAndParseActs. apply run_seeds. left.
    apply list_elem_of_fmap. by exists a. }
  unfold fetchAndParseActs.
  destruct (run_all_cached acts (initial_state (files st1) (world st1)) Hall)
    as (Hf & Hw & Hwr & Hs & Hfl).
  rewrite Hf, Hw, Hwr, Hs, Hfl. repeat split; reflexivity.
Qed.

(** The requests of a run: at most four for each act. *)
Lemma step_requests skip st act :
  Fetcher.requests (world st) <= Fetcher.requests (world (step skip st act))
    <= Fetcher.requests (world st) + 4.
Proof.
  pose proof (attempt_loop_requests env (url act) Fetcher.DEFAULT_MAX_RETRIES
                (Z.to_nat (Fetcher.DEFAULT_MAX_RETRIES + 1)) 0%Z
                (Fetcher.rateLimit env (world st))) as Hreq.
  rewrite rateLimit_requests in Hreq.
  change (Z.to_nat (Fetcher.DEFAULT_MAX_RETRIES + 1)) with 4 in Hreq.
  unfold process_act.
  assert (Hfetch : Fetcher.requests (world st)
            <= Fetcher.requests
                 (world match Fetcher.fetchWithRateLimit env (url act)
                                Fetcher.DEFAULT_MAX_RETRIES (world st) with
                        | (Fetcher.Returned result, w') =>
                            if bool_decide (Fetcher.status result = 200%Z)
                            then parse_and_write toLowerCase toUpperCase act
                                   (Fetcher.body result)
                                   (write_source act (Fetcher.body result) (files st)) w' st
                            else write_fallback act
                                   (lit "HTTP " ++ decimal (Fetcher.status result)
                                      ++ lit " (fallback)") w' st
                        | (Fetcher.Thrown _, w') =>
                            write_fallback act (lit "FETCH FAILED (fallback)") w' st
                        end)
            <= Fetcher.requests (world st) + 4).
  { unfold Fetcher.fetchWithRateLimit.
    change (Z.to_nat (Fetcher.DEFAULT_MAX_RETRIES + 1)) with 4.
    destruct (Fetcher.attempt_loop _ _ _ _ _ _) as [[result|e] w'];
      [destruct (bool_decide _)|]; simpl in *; lia. }
  destruct skip; [|exact Hfetch].
  destruct (seedFiles (files st) !! id act); [simpl; lia|].
  destruct (sourceFiles (files st) !! id act); [simpl; lia|exact Hfetch].
Qed.

(** X25.  A run sends at most four requests for each act of its work
    list. *)
Theorem run_requests_bounded (acts : list ActIndexEntry) (skip : bool) (fs : FileSystem)
    (w : Fetcher.World) :
  Fetcher.requests w <= Fetcher.requests (world (run acts skip fs w))
    <= Fetcher.requests w + 4 * length acts.
Proof.
  unfold fetchAndParseActs.
  change (Fetcher.requests w) with (Fetcher.requests (world (initial_state fs w))).
  generalize (initial_state fs w). induction acts as [|a acts IH]; intros st.
  - simpl. lia.
  - cbn [foldl]. specialize (IH (step skip st a)).
    pose proof (step_requests skip st a). simpl length. lia.
Qed.

(** A skip-fetch iteration on an act that has a seed or a cached page
    leaves the client alone and keeps the cached pages. *)
Lemma step_cached st act :
  is_Some (seedFiles (files st) !! id act) \/ is_Some (sourceFiles (files st) !! id act) ->
  world (step true st act) = world st
  /\ failed (step true st act) = failed st
  /\ sourceFiles (files (step true st act)) = sourceFiles (files st).
Proof.
  intros H. unfold process_act.
  destruct (seedFiles (files st) !! id act) as [existing|] eqn:Es; [done|].
  destruct H as [[? H]|[html H]]; [discriminate|]. rewrite H. done.
Qed.

Lemma run_cached acts : forall st,
  (forall act, act ∈ acts ->
     is_Some (seedFiles (files st) !! id act) \/ is_Some (sourceFiles (files st) !! id act)) ->
  world (foldl (step true) st acts) = world st
  /\ failed (foldl (step true) st acts) = failed st
  /\ sourceFiles (files (foldl (step true) st acts)) = sourceFiles (files st).
Proof.
  induction acts as [|a acts IH]; intros st Hall; [done|].
  cbn [foldl].
  destruct (step_cached st a (Hall a ltac:(left))) as (Hw & Hf & Hs).
  destruct (IH (step true st a)) as (Hw' & Hf' & Hs').
  { intros b Hb. rewrite Hs. destruct (Hall b ltac:(by right)) as [H|H]; [left|by right].
    apply step_seeds. by right. }
  rewrite Hw', Hf', Hs', Hw, Hf, Hs. done.
Qed.

(** X26.  A skip-fetch run over acts that each have a seed or a cached
    page sends no request, fails for no act, and leaves the cached pages as
    they are. *)
Theorem cached_pages_need_no_request (acts : list ActIndexEntry) (fs : FileSystem)
    (w : Fetcher.World) :
  (forall act, act ∈ acts ->
     is_Some (seedFiles fs !! id act) \/ is_Some (sourceFiles fs !! id act)) ->
  world (run acts true fs w) = w
  /\ failed (run acts true fs w) = 0
  /\ sourceFiles (files (run acts true fs w)) = sourceFiles fs.
Proof. intros Hall. unfold fetchAndParseActs. by apply run_cached. Qed.

(** X27.  When the page of an act is fetched with status 200 it is cached
    and its parsed record written as the seed; a later skip-fetch iteration
    that finds the cached page and no seed writes the same seed without a
    request. *)
Theorem cached_source_reproduces_seed (st st2 : RunState) (act : ActIndexEntry)
    (result : Fetcher.FetchResult) (w' : Fetcher.World) :
  Fetcher.fetchWithRateLimit env (url act) Fetcher.DEFAULT_MAX_RETRIES (world st)
    = (Fetcher.Returned result, w') ->
  Fetcher.status result = 200%Z ->
  seedFiles (files st2) !! id act = None ->
  sourceFiles (files st2) !! id act = sourceFiles (files (step false st act)) !! id act ->
  sourceFiles (files (step false st act)) !! id act = Some (Fetcher.body result)
  /\ seedFiles (files (step false st act)) !! id act
     = Some (parsePhilippineHtml toLowerCase toUpperCase (Fetcher.body result) act)
  /\ seedFiles (files (step true st2 act)) !! id act
     = seedFiles (files (step false st act)) !! id act
  /\ world (step false st act) = w'
  /\ world (step true st2 act) = world st2.
Proof.
  intros Hf H200 Hseed Hsrc.
  assert (E1 : step false st act
               = parse_and_write toLowerCase toUpperCase act (Fetcher.body result)
                   (write_source act (Fetcher.body result) (files st)) w' st).
  { unfold process_act. rewrite Hf. by rewrite bool_decide_eq_true_2. }
  rewrite E1 in Hsrc |- *.
  cbn [files parse_and_write write_seed write_source seedFiles sourceFiles world] in Hsrc |- *.
  rewrite lookup_insert_eq in Hsrc. rewrite !lookup_insert_eq.
  assert (E2 : step true st2 act
               = parse_and_write toLowerCase toUpperCase act (Fetcher.body result)
                   (files st2) (world st2) st2).
  { unfold process_act. by rewrite Hseed, Hsrc. }
  rewrite E2. cbn [files parse_and_write write_seed seedFiles world].
  rewrite lookup_insert_eq. repeat split; reflexivity.
Qed.

(** A call against an endpoint that always answers 503. *)
Lemma fetch_503 target w :
  Fetcher.always_503 env target ->
  exists res w',
    Fetcher.fetchWithRateLimit env target Fetcher.DEFAULT_MAX_RETRIES w
      = (Fetcher.Returned res, w')
    /\ Fetcher.status res = 503%Z
    /\ Fetcher.requests w' = Fetcher.requests w + 4.
Proof.
  intros H503. unfold Fetcher.fetchWithRateLimit.
  destruct (attempt_loop_503 env target Fetcher.DEFAULT_MAX_RETRIES H503
              (Z.to_nat (Fetcher.DEFAULT_MAX_RETRIES + 1)) 0%Z (Fetcher.rateLimit env w))
    as (res & w' & E & Hs & Hr); [reflexivity|unfold Fetcher.DEFAULT_MAX_RETRIES; lia|].
  exists res, w'. split; [exact E|]. split; [exact Hs|].
  rewrite Hr, rateLimit_requests. reflexivity.
Qed.

Lemma run_dead_server acts : forall st,
  (forall act, act ∈ acts -> Fetcher.always_503 env (url act)) ->
  written (foldl (step false) st acts) = written st ++ (createFallbackSeed <$> acts)
  /\ failed (foldl (step false) st acts) = failed st + length acts
  /\ totalProvisions (foldl (step false) st acts) = totalProvisions st
  /\ totalDefinitions (foldl (step false) st acts) = totalDefinitions st
  /\ Fetcher.requests (world (foldl (step false) st acts))
     = Fetcher.requests (world st) + 4 * length acts.
Proof.
  induction acts as [|a acts IH]; intros st Hdead.
  - simpl. rewrite app_nil_r. repeat split; lia.
  - cbn [foldl].
    destruct (fetch_503 (url a) (world st) (Hdead a ltac:(left)))
      as (res & w' & E & Hs & Hr).
    assert (Estep : step false st a
              = write_fallback a (lit "HTTP " ++ decimal (Fetcher.status res)
                                    ++ lit " (fallback)") w' st).
    { unfold process_act. rewrite E. rewrite bool_decide_eq_false_2; [reflexivity|].
      rewrite Hs. discriminate. }
    rewrite Estep.
    destruct (IH (write_fallback a (lit "HTTP " ++ decimal (Fetcher.status res)
                                      ++ lit " (fallback)") w' st))
      as (Hw & Hf & Htp & Htd & Hreq).
    { intros b Hb. apply Hdead. by right. }
    rewrite Hw, Hf, Htp, Htd, Hreq. cbn [written failed totalProvisions totalDefinitions
      world write_fallback]. rewrite Hr, fmap_cons, <- app_assoc. simpl length.
    repeat split; try reflexivity; lia.
Qed.

(** X28.  When every request for every act is answered with status 503,
    a run without skip-fetch writes the fallback record of each act, in
    order, counts every act as failed and no provision or definition, and
    sends exactly four requests for each act. *)
Theorem dead_server_gives_fallbacks (acts : list ActIndexEntry) (fs : FileSystem)
    (w : Fetcher.World) :
  (forall act, act ∈ acts -> Fetcher.always_503 env (url act)) ->
  written (run acts false fs w) = createFallbackSeed <$> acts
  /\ failed (run acts false fs w) = length acts
  /\ totalProvisions (run acts false fs w) = 0
  /\ totalDefinitions (run acts false fs w) = 0
  /\ Fetcher.requests (world (run acts false fs w)) = Fetcher.requests w + 4 * length acts.
Proof.
  intros Hdead. unfold fetchAndParseActs.
  destruct (run_dead_server acts (initial_state fs w) Hdead) as (Hw & Hf & Htp & Htd & Hr).
  rewrite Hw, Hf, Htp, Htd, Hr. repeat split; reflexivity.
Qed.

End WithSurroundings.
Lemma work_list_is_prefix_witness :
  selected_acts (Some 3%Z) `prefix_of` KEY_PHILIPPINE_ACTS
  /\ length (selected_acts (Some 3%Z)) = Nat.min (Z.to_nat 3) (length KEY_PHILIPPINE_ACTS).
Proof.
  destruct (work_list_is_prefix (Some 3%Z)) as [H1 H2].
  split; [exact H1|]. apply H2; [reflexivity|lia].
Defined.

Lemma flags_come_from_arguments_witness :
  flag_skip_fetch ∈ [lit "--limit"; lit "5"; lit "--skip-fetch"]
  /\ flag_limit ∈ [lit "--limit"; lit "5"; lit "--skip-fetch"].
Proof.
  destruct (flags_come_from_arguments [lit "--limit"; lit "5"; lit "--skip-fetch"])
    as [H1 H2].
  split; [apply H1; vm_compute; reflexivity|].
  apply H2. exists 5%Z. vm_compute. reflexivity.
Defined.

Lemma every_act_gets_a_seed_witness :
  is_Some (seedFiles (files (fetchAndParseActs ascii_toLowerCase ascii_toUpperCase env_flaky
                               [any_act] false no_files first_world)) !! id any_act).
Proof.
  apply (every_act_gets_a_seed ascii_toLowerCase ascii_toUpperCase env_flaky
           [any_act] false no_files first_world (id any_act)).
  left. simpl. left.
Defined.

Lemma cached_pages_need_no_request_witness :
  world (fetchAndParseActs ascii_toLowerCase ascii_toUpperCase env_down
           [any_act] true one_source first_world) = first_world
  /\ failed (fetchAndParseActs ascii_toLowerCase ascii_toUpperCase env_down
               [any_act] true one_source first_world) = 0
  /\ sourceFiles (files (fetchAndParseActs ascii_toLowerCase ascii_toUpperCase env_down
                           [any_act] true one_source first_world))
     = sourceFiles one_source.
Proof.
  apply (cached_pages_need_no_request ascii_toLowerCase ascii_toUpperCase env_down
           [any_act] one_source first_world).
  intros act Hact. apply list_elem_of_singleton in Hact. subst act.
  right. exists scenario_page. vm_compute. reflexivity.
Defined.

Lemma cached_source_reproduces_seed_witness :
  sourceFiles (files (process_act ascii_toLowerCase ascii_toUpperCase env_ok false
                        (initial_state no_files first_world) any_act)) !! id any_act
    = Some (Fetcher.body scenario_response)
  /\ seedFiles (files (process_act ascii_toLowerCase ascii_toUpperCase env_ok false
                         (initial_state no_files first_world) any_act)) !! id any_act
     = Some (parsePhilippineHtml ascii_toLowerCase ascii_toUpperCase
               (Fetcher.body scenario_response) any_act)
  /\ seedFiles (files (process_act ascii_toLowerCase ascii_toUpperCase env_ok true
                         (initial_state one_source first_world) any_act)) !! id any_act
     = seedFiles (files (process_act ascii_toLowerCase ascii_toUpperCase env_ok false
                           (initial_state no_files first_world) any_act)) !! id any_act
  /\ world (process_act ascii_toLowerCase ascii_toUpperCase env_ok false
              (initial_state no_files first_world) any_act)
     = (Fetcher.fetchWithRateLimit env_ok (url any_act) Fetcher.DEFAULT_MAX_RETRIES
          first_world).2
  /\ world (process_act ascii_toLowerCase ascii_toUpperCase env_ok true
              (initial_state one_source first_world) any_act)
     = world (initial_state one_source first_world).
Proof.
  apply (cached_source_reproduces_seed ascii_toLowerCase ascii_toUpperCase env_ok
           (initial_state no_files first_world) (initial_state one_source first_world)
           any_act scenario_response
           (Fetcher.fetchWithRateLimit env_ok (url any_act) Fetcher.DEFAULT_MAX_RETRIES
              first_world).2).
  - vm_compute. reflexivity.
  - reflexivity.
  - vm_compute. reflexivity.
  - vm_compute. reflexivity.
Defined.

Lemma dead_server_gives_fallbacks_witness :
  written (fetchAndParseActs ascii_toLowerCase ascii_toUpperCase env_503
             [any_act] false no_files first_world) = createFallbackSeed <$> [any_act]
  /\ failed (fetchAndParseActs ascii_toLowerCase ascii_toUpperCase env_503
               [any_act] false no_files first_world) = length [any_act]
  /\ totalProvisions (fetchAndParseActs ascii_toLowerCase ascii_toUpperCase env_503
                        [any_act] false no_files first_world) = 0
  /\ totalDefinitions (fetchAndParseActs ascii_toLowerCase ascii_toUpperCase env_503
                         [any_act] false no_files first_world) = 0
  /\ Fetcher.requests (world (fetchAndParseActs ascii_toLowerCase ascii_toUpperCase env_503
                                [any_act] false no_files first_world))
     = Fetcher.requests first_world + 4 * length [any_act].
Proof.
  apply (dead_server_gives_fallbacks ascii_toLowerCase ascii_toUpperCase env_503
           [any_act] no_files first_world).
  intros act _ n. eexists _, _, _. reflexivity.
Defined.

End IngestMore.
